(** * k8s-crd-resolver: the schema pruners and the CRD driver

    A shallow embedding of [src/k8s_crd_resolver/__init__.py]: the YAML
    document tree, the Extension Pruner [remove_k8s_extentions], the
    Description Pruner [remove_k8s_descriptions], [parse_and_resolve] and the
    driver [resolve], followed by the properties of the specification (C1 to
    C10) and by further properties of the code (X1 to X22). *)

From Stdlib Require Import Ascii.
From stdpp Require Import gmap strings list fin_maps.

#[local] Set Warnings "-register-all".

(** ** The document tree

    What [ruamel.yaml]'s safe loader builds: [None], booleans, integers,
    floats, strings, lists and dicts.  The pruners are annotated
    [Dict[str, Any]] and call [k.startswith] on every key, so mapping keys are
    strings; a Python dict holds each key once and compares without regard to
    order, which is [gmap string].  A float is carried by its YAML text: no
    function of the program looks inside a scalar other than a string. *)

Inductive value :=
  | VNull
  | VBool (b : bool)
  | VInt (n : Z)
  | VFloat (text : string)
  | VStr (s : string)
  | VList (l : list value)
  | VDict (d : gmap string value).

(** One step of a path into a document: a mapping key or a sequence index. *)
Inductive step :=
  | Key (k : string)
  | Idx (i : nat).

Definition get_step (st : step) (v : value) : option value :=
  match st, v with
  | Key k, VDict d => d !! k
  | Idx i, VList l => l !! i
  | _, _ => None
  end.

Fixpoint get_path (p : list step) (v : value) : option value :=
  match p with
  | [] => Some v
  | st :: p' => get_step st v ≫= get_path p'
  end.

Definition is_key (st : step) : bool :=
  match st with Key _ => true | Idx _ => false end.

Definition is_dict (v : value) : bool :=
  match v with VDict _ => true | _ => false end.

(** ** The Extension Pruner (source lines 38-57) *)

Definition K8S_SCHEMA_EXTENSIONS : list string :=
  [ "x-kubernetes-embedded-resource";
    "x-kubernetes-int-or-string";
    "x-kubernetes-preserve-unknown-fields";
    "x-kubernetes-list-map-keys";
    "x-kubernetes-list-type";
    "x-kubernetes-map-type";
    "x-kubernetes-validator" ].

(** [k.startswith('x-kubernetes-')] *)
Definition is_vendor (k : string) : bool := String.prefix "x-kubernetes-" k.

(** [k not in K8S_SCHEMA_EXTENSIONS] is [negb (allowed k)]. *)
Definition allowed (k : string) : bool :=
  bool_decide (k ∈ K8S_SCHEMA_EXTENSIONS).

(** The test of line 54: the key is deleted. *)
Definition pruned_key (k : string) : bool := is_vendor k && negb (allowed k).

(** [remove_k8s_extentions] mutates its argument; the embedding returns the
    tree the argument has become.  The loop runs over [list(schema.keys())], a
    snapshot of the entries: the accumulator starts as the dict itself, a
    pruned key is deleted from it ([del schema[k]]) and any other entry is
    overwritten with its child as the recursive call leaves it.  Anything that
    is not a dict, a list included, fails the [isinstance] test and is left
    alone. *)
Fixpoint remove_k8s_extentions (schema : value) : value :=
  match schema with
  | VDict d =>
      VDict (map_fold (λ k child acc,
               if pruned_key k then delete k acc
               else <[k := remove_k8s_extentions child]> acc) d d)
  | _ => schema
  end.

(** ** The Description Pruner (source lines 60-71)

    [source_schema] is [None] ([VNull]) below a key that the source does not
    have.  [isinstance(source_schema, dict) and k in source_schema] followed
    by [source_schema[k]] is [source_child]. *)

Definition source_child (source_schema : value) (k : string) : option value :=
  match source_schema with
  | VDict s => s !! k
  | _ => None
  end.

Fixpoint remove_k8s_descriptions (schema source_schema : value) : value :=
  match schema with
  | VDict d =>
      VDict (map_fold (λ k child acc,
               match source_child source_schema k with
               | Some src => <[k := remove_k8s_descriptions child src]> acc
               | None =>
                   if String.eqb k "description" then delete k acc
                   else <[k := remove_k8s_descriptions child VNull]> acc
               end) d d)
  | _ => schema
  end.

(** ** Exceptions and results

    A [TypeError] carries its message as the format string and the values
    substituted into it; the interpreter's own messages are abbreviated.
    [LibraryError] stands for what the libraries raise ([prance]'s
    [ResolutionError] and [ValidationError], [jsonpatch]'s
    [JsonPatchException]). *)

Inductive exn :=
  | TypeError (msg : string) (args : list value)
  | KeyError (k : string)
  | FileNotFoundError (path : string)
  | LibraryError (name : string).

Inductive res (A : Type) :=
  | Ok (a : A)
  | Raise (e : exn).
Arguments Ok {A} a.
Arguments Raise {A} e.

#[global] Instance res_ret : MRet res := λ A, Ok.
#[global] Instance res_bind : MBind res := λ A B f r,
  match r with Ok a => f a | Raise e => Raise e end.
#[global] Instance res_fmap : FMap res := λ A B f r,
  match r with Ok a => Ok (f a) | Raise e => Raise e end.

(** [v[k]] for a string [k]. *)
Definition getitem (v : value) (k : string) : res value :=
  match v with
  | VDict d =>
      match d !! k with Some x => Ok x | None => Raise (KeyError k) end
  | VList _ => Raise (TypeError "list indices must be integers or slices, not str" [])
  | VStr _ => Raise (TypeError "string indices must be integers" [])
  | _ => Raise (TypeError "object is not subscriptable" [])
  end.

(** [v[k] = x] for a string [k]: the container after the assignment. *)
Definition setitem (v : value) (k : string) (x : value) : res value :=
  match v with
  | VDict d => Ok (VDict (<[k := x]> d))
  | VList _ => Raise (TypeError "list indices must be integers or slices, not str" [])
  | _ => Raise (TypeError "object does not support item assignment" [])
  end.

(** [for x in v]: the elements the loop visits.  A dict yields its keys and a
    string its characters. *)
Definition py_iter (v : value) : res (list value) :=
  match v with
  | VList l => Ok l
  | VDict d => Ok (VStr <$> (map_to_list d).*1)
  | VStr s => Ok ((λ c, VStr (String c EmptyString)) <$> String.list_ascii_of_string s)
  | _ => Raise (TypeError "object is not iterable" [])
  end.

(** [v == s] and [v != s] against a string constant. *)
Definition py_eq_str (v : value) (s : string) : bool :=
  match v with VStr s' => String.eqb s' s | _ => false end.

(** ** The outside world

    Files are known by the document they hold: YAML and JSON texts are read
    and written through the loaders, and the embedding keeps the document.
    [stdout] collects what is dumped to the standard output. *)

Record world := World {
  files : gmap string value;
  stdin : value;
  stdout : list value
}.

Definition io (A : Type) : Type := world → res A * world.

#[global] Instance io_ret : MRet io := λ A a w, (Ok a, w).
#[global] Instance io_bind : MBind io := λ A B f m w,
  match m w with
  | (Ok a, w') => f a w'
  | (Raise e, w') => (Raise e, w')
  end.

Definition lift {A} (r : res A) : io A := λ w, (r, w).
Definition raise {A} (e : exn) : io A := lift (Raise e).

(** [with open(path, 'r') as f: load(f)] *)
Definition read_file (path : string) : io value := λ w,
  match files w !! path with
  | Some doc => (Ok doc, w)
  | None => (Raise (FileNotFoundError path), w)
  end.

Definition read_stdin : io value := λ w, (Ok (stdin w), w).

(** The world once [open(path, 'w')] has succeeded and nothing is written
    yet: the file is there and empty, and an empty file loads as [None]. *)
Definition truncated (path : string) (w : world) : world :=
  World (<[path := VNull]> (files w)) (stdin w) (stdout w).

(** The world in which the dump of lines 134 and 136 starts: the destination
    file has just been opened, and nothing has happened to the standard
    output. *)
Definition opened (destination : string) (w : world) : world :=
  if String.eqb destination "-" then w else truncated destination w.

(** ** [parse_and_resolve] and the driver [resolve] (source lines 27-36, 74-136) *)

Definition OPENAPI_V3_SKELETON : value :=
  VDict {[ "openapi" := VStr "3.0.0";
           "info" := VDict {[ "version" := VStr "v1"; "title" := VStr "CRD" ]};
           "paths" := VDict ∅;
           "components" :=
             VDict {[ "schemas" := VDict {[ "crd_schema" := VNull ]} ]} ]}.

Section Driver.
(** [prance.ResolvingParser(file, backend='openapi-spec-validator')], a
    library: given the document dumped to the temporary file it yields
    [parser.specification] or raises. *)
Variable ResolvingParser : value → res value.
(** [jsonpatch.JsonPatch], a library: a patch is the document that
    [JsonPatch.from_string] has parsed, [JsonPatch_bool] is its truth value
    and [JsonPatch_apply] is [apply(doc, in_place=True)]. *)
Variable JsonPatch_bool : value → bool.
Variable JsonPatch_apply : value → value → res value.
(** The operating system under the two writes of lines 132-136.
    [open_refused path w] is the exception with which [open(path, 'w')] fails
    in the world [w], when it does (no such directory, no permission, an empty
    path); the world is then as it was.  [dump_interrupted destination doc w]
    is the exception with which [ruamel.yaml.dump] stops part-way (a full
    disk, a closed pipe) while writing [doc], together with the world it
    leaves behind, in which what was written before the failure stays
    written; [None] when the dump runs to its end. *)
Variable open_refused : string → world → option exn.
Variable dump_interrupted : string → value → world → option (exn * world).

(** [with open(path, 'w') as f: ruamel.yaml.dump(doc, f)]: the open can fail,
    then the file is truncated, then the dump can fail on the truncated file;
    when both succeed the file holds the document. *)
Definition write_file (path : string) (doc : value) : io unit := λ w,
  match open_refused path w with
  | Some e => (Raise e, w)
  | None =>
      match dump_interrupted path doc (truncated path w) with
      | Some (e, w') => (Raise e, w')
      | None => (Ok (), World (<[path := doc]> (files w)) (stdin w) (stdout w))
      end
  end.

(** [ruamel.yaml.dump(doc, sys.stdout)] *)
Definition write_stdout (doc : value) : io unit := λ w,
  match dump_interrupted "-" doc w with
  | Some (e, w') => (Raise e, w')
  | None => (Ok (), World (files w) (stdin w) (stdout w ++ [doc]))
  end.

Definition parse_and_resolve (schema : value) (remove_desciptions : bool)
    : res value :=
  let openapi_spec := OPENAPI_V3_SKELETON in
  components ← getitem openapi_spec "components";
  schemas ← getitem components "schemas";
  schemas ← setitem schemas "crd_schema" schema;
  components ← setitem components "schemas" schemas;
  openapi_spec ← setitem openapi_spec "components" components;
  specification ← ResolvingParser openapi_spec;
  components ← getitem specification "components";
  schemas ← getitem components "schemas";
  resolved_schema ← getitem schemas "crd_schema";
  let resolved_schema := remove_k8s_extentions resolved_schema in
  let resolved_schema :=
    if remove_desciptions
    then remove_k8s_descriptions resolved_schema schema
    else resolved_schema in
  mret resolved_schema.

(** Lines 118-120: the single schema of a [v1beta1] CRD. *)
Definition resolve_v1beta1 (source : value) (remove_descriptions : bool)
    : res value :=
  spec ← getitem source "spec";
  validation ← getitem spec "validation";
  schema ← getitem validation "openAPIV3Schema";
  resolved_schema ← parse_and_resolve schema remove_descriptions;
  validation ← setitem validation "openAPIV3Schema" resolved_schema;
  spec ← setitem spec "validation" validation;
  setitem source "spec" spec.

(** Lines 123-125: the body of the loop over the versions of a [v1] CRD;
    the result is the element as the body leaves it. *)
Definition resolve_version (remove_descriptions : bool) (version : value)
    : res value :=
  holder ← getitem version "schema";
  schema ← getitem holder "openAPIV3Schema";
  resolved_schema ← parse_and_resolve schema remove_descriptions;
  holder ← setitem holder "openAPIV3Schema" resolved_schema;
  setitem version "schema" holder.

(** Lines 122-125.  The elements of a list are updated where they are; the
    keys of a dict and the characters of a string are strings, on which the
    body raises at once, so only a list is ever written back. *)
Definition resolve_v1 (source : value) (remove_descriptions : bool)
    : res value :=
  spec ← getitem source "spec";
  versions ← getitem spec "versions";
  elements ← py_iter versions;
  elements ← mapM (resolve_version remove_descriptions) elements;
  match versions with
  | VList _ =>
      spec ← setitem spec "versions" (VList elements);
      setitem source "spec" spec
  | _ => mret source
  end.

Definition resolve (source destination : string) (jsonpatch : option string)
    (remove_descriptions : bool) : io unit :=
  (* Load CRD *)
  source ← (if negb (String.eqb source "-") then read_file source
            else read_stdin);
  (* Load JSON patch (if any): line 109 rebinds the argument to None, and
     [if jsonpatch:] holds of a path that is not the empty string *)
  let jsonpatch : option string := None in
  jsonpatch ← (match jsonpatch with
               | Some path =>
                   if negb (String.eqb path "")
                   then patch ← read_file path; mret (Some patch)
                   else mret None
               | None => mret None
               end);
  kind ← lift (getitem source "kind");
  if negb (py_eq_str kind "CustomResourceDefinition")
  then raise (TypeError "Input file is not a CustomResourceDefinition." [])
  else
    apiVersion ← lift (getitem source "apiVersion");
    source ← (if py_eq_str apiVersion "apiextensions.k8s.io/v1beta1"
              then lift (resolve_v1beta1 source remove_descriptions)
              else
                apiVersion ← lift (getitem source "apiVersion");
                if py_eq_str apiVersion "apiextensions.k8s.io/v1"
                then lift (resolve_v1 source remove_descriptions)
                else
                  version ← lift (getitem source "version");
                  raise (TypeError "Unsupported CRD version {}" [version]));
    source ← (match jsonpatch with
              | Some patch =>
                  if JsonPatch_bool patch
                  then lift (JsonPatch_apply patch source)
                  else mret source
              | None => mret source
              end);
    if negb (String.eqb destination "-")
    then write_file destination source
    else write_stdout source.
End Driver.

(** ** The Reference Resolver

    The resolving pass itself is [prance]'s, outside the repository.  What
    follows is its contract as the specification words it (§3, §4.1), so that
    [parse_and_resolve] can be run and its result examined. *)

(** Modelled from the spec: the two halves of a reference string (§3), a
    path to another location and a pointer.  [s] is cut at the first [c]:
    what is before it, and what is after it when there is one. *)
Fixpoint cut_at (c : Ascii.ascii) (s : string) : string * option string :=
  match s with
  | EmptyString => (EmptyString, None)
  | String a s' =>
      if Ascii.eqb a c then (EmptyString, Some s')
      else let '(before, after) := cut_at c s' in (String a before, after)
  end.

(** Modelled from the spec: the steps of a JSON Pointer (§3).  [s] is split
    at every [c]. *)
Fixpoint split_on (c : Ascii.ascii) (s : string) : list string :=
  match s with
  | EmptyString => [EmptyString]
  | String a s' =>
      if Ascii.eqb a c then EmptyString :: split_on c s'
      else match split_on c s' with
           | [] => [String a EmptyString]
           | t :: ts => String a t :: ts
           end
  end.

(** Modelled from the spec: a JSON Pointer token (§3), with [~1] and [~0]
    decoded as RFC 6901 has them. *)
Fixpoint unescape (s : string) : string :=
  match s with
  | String "~"%char (String "1"%char s') => String "/"%char (unescape s')
  | String "~"%char (String "0"%char s') => String "~"%char (unescape s')
  | String a s' => String a (unescape s')
  | EmptyString => EmptyString
  end.

(** Modelled from the spec: the tokens of a JSON Pointer (§3).  The empty
    pointer names the whole document, any other pointer starts with a slash. *)
Definition pointer_tokens (fragment : string) : option (list string) :=
  match split_on "/"%char fragment with
  | [EmptyString] => Some []
  | EmptyString :: tokens => Some (unescape <$> tokens)
  | _ => None
  end.

(** Modelled from the spec: a JSON Pointer token that names a position in a
    sequence, in decimal digits. *)
Fixpoint index_of_digits (acc : nat) (s : string) : option nat :=
  match s with
  | EmptyString => Some acc
  | String a s' => d ← Ascii.is_nat a; index_of_digits (10 * acc + d) s'
  end.

Definition index_of_token (t : string) : option nat :=
  match t with
  | EmptyString => None
  | _ => index_of_digits 0 t
  end.

(** Modelled from the spec: the target of a pointer (§4.1), when it exists. *)
Fixpoint pointer_get (tokens : list string) (doc : value) : option value :=
  match tokens with
  | [] => Some doc
  | t :: tokens' =>
      match doc with
      | VDict d => d !! t ≫= pointer_get tokens'
      | VList l => i ← index_of_token t; l !! i ≫= pointer_get tokens'
      | _ => None
      end
  end.

(** Modelled from the spec: a mapping is resolved when each of its children
    is (§4.1).  All the entries of a map when each is present. *)
Definition map_sequence (m : gmap string (option value))
    : option (gmap string value) :=
  if decide (map_Forall (λ _ o, is_Some o) m) then Some (omap id m) else None.

Section Resolver.
(** Modelled from the spec: the fetches of external references (§4.1), the
    documents they reach by file name or URL. *)
Variable fetch : string → option value.

(** Modelled from the spec: the target of a reference (§3, §4.1).  The
    document and the node that the reference [ref] names from inside [root]: what is before the [#] is another document, or [root] itself
    when empty, and what is after it is a JSON Pointer into that document. *)
Definition locate (root : value) (ref : string) : option (value * value) :=
  let '(url, fragment) := cut_at "#"%char ref in
  root' ← (if String.eqb url "" then Some root else fetch url);
  tokens ← pointer_tokens (default "" fragment);
  target ← pointer_get tokens root';
  Some (root', target).

(** Modelled from the spec: the resolution pass of the Reference Resolver
    (§4.1), which in the program is [prance.ResolvingParser], a library.
    Every reference node, a mapping with a [$ref] key holding a string
    pointer, is replaced by the content of its target, itself resolved
    against the document it lives in; every other mapping and sequence is
    resolved child by child, however deep it is.  [limit] is the recursion
    safeguard: it bounds how many references may be followed one inside the
    other.  The pass fails, with no result, when the target does not exist,
    when the reference is malformed, or when the limit is used up, as it is
    on a circular reference. *)
Fixpoint resolve_refs (limit : nat) (root node : value) {struct limit}
    : option value :=
  (fix walk (node : value) {struct node} : option value :=
     match node with
     | VDict d =>
         match d !! "$ref" with
         | Some (VStr ref) =>
             match limit with
             | 0 => None
             | S limit =>
                 '(root', target) ← locate root ref;
                 resolve_refs limit root' target
             end
         | Some _ => None
         | None => VDict <$> map_sequence (walk <$> d)
         end
     | VList l => VList <$> mapM walk l
     | _ => Some node
     end) node.

(** Modelled from the spec: what the resolution pass is to produce (§4.1).
    [resolved_from root node out]: [out] is [node] with every reference node
    replaced by the content of its target, that content resolved in the same
    way against the document the target lives in; everything else is kept,
    key by key and element by element. *)
Inductive resolved_from : value → value → value → Prop :=
  | resolved_scalar root v :
      match v with VDict _ | VList _ => False | _ => True end →
      resolved_from root v v
  | resolved_list root l l' :
      Forall2 (resolved_from root) l l' →
      resolved_from root (VList l) (VList l')
  | resolved_dict root (d d' : gmap string value) :
      d !! "$ref" = None →
      (∀ k, option_Forall2 (resolved_from root) (d !! k) (d' !! k)) →
      resolved_from root (VDict d) (VDict d')
  | resolved_ref root (d : gmap string value) ref root' target out :
      d !! "$ref" = Some (VStr ref) →
      locate root ref = Some (root', target) →
      resolved_from root' target out →
      resolved_from root (VDict d) out.

(** Modelled from the spec: [resolve(schemaDoc) -> fullyDereferencedDoc],
    failing with a [ResolutionError] (§4.1), for the library call
    [ResolvingParser(...).specification]: references are resolved relative
    to the root of the document given. *)
Definition ResolvingParser_spec (limit : nat) (doc : value) : res value :=
  match resolve_refs limit doc doc with
  | Some out => Ok out
  | None => Raise (LibraryError "ResolutionError")
  end.
End Resolver.

(** ** Properties of documents *)

(** No mapping at any depth, through mapping values and sequence elements
    alike, has a [$ref] key. *)
Definition ref_free (v : value) : Prop :=
  ∀ p d, get_path p v = Some (VDict d) → d !! "$ref" = None.

(** The label [foo: bar] of the JSON Patch scenario. *)
Definition has_label_foo_bar (crd : value) : Prop :=
  get_path [Key "metadata"; Key "labels"; Key "foo"] crd = Some (VStr "bar").

(** No mapping at any depth, through mapping values and sequence elements
    alike, holds a key that the Extension Pruner deletes: every vendor key is
    in the allow-list. *)
Definition vendor_free_everywhere (v : value) : Prop :=
  ∀ p d k, get_path p v = Some (VDict d) → is_Some (d !! k) →
    is_vendor k = true → k ∈ K8S_SCHEMA_EXTENSIONS.

(** A path along which no mapping key is deleted by the Extension Pruner
    before the first sequence index; lists are never entered by the pruner, so
    nothing below an index matters. *)
Fixpoint path_kept (p : list step) : bool :=
  match p with
  | [] => true
  | Key k :: p' => negb (pruned_key k) && path_kept p'
  | Idx _ :: _ => true
  end.

(** The document [resolve] reads: the file named [source], or the standard
    input for ["-"]. *)
Definition input_document (source : string) (w : world) : option value :=
  if String.eqb source "-" then Some (stdin w) else files w !! source.

(** The number of nodes of a tree, the measure for induction through the
    children of mappings and sequences. *)
Fixpoint value_size (v : value) : nat :=
  match v with
  | VDict d => S (map_fold (λ _ child acc, value_size child + acc) 0 d)
  | VList l => S (foldr (λ child acc, value_size child + acc) 0 l)
  | _ => 1
  end.

(** What the two loops leave under each key: the entry is gone, or holds the
    child as the recursive call leaves it. *)

Definition extension_entry (k : string) (child : value) : option value :=
  if pruned_key k then None else Some (remove_k8s_extentions child).

Definition description_entry (source_schema : value) (k : string)
    (child : value) : option value :=
  match source_child source_schema k with
  | Some src => Some (remove_k8s_descriptions child src)
  | None =>
      if String.eqb k "description" then None
      else Some (remove_k8s_descriptions child VNull)
  end.

(** ** Example documents *)

(** A vendor key inside an element of a sequence. *)
Definition sequence_schema : value :=
  VDict {[ "allOf" := VList [VDict {[ "x-kubernetes-foo" := VInt 1 ]}] ]}.

(** Vendor keys at two depths, one of them allow-listed. *)
Definition nested_schema : value :=
  VDict {[ "x-kubernetes-foo" := VInt 1;
           "properties" :=
             VDict {[ "a" := VDict {[ "x-kubernetes-bar" := VBool true;
                                      "x-kubernetes-list-type" := VStr "set";
                                      "type" := VStr "array" ]} ]} ]}.

(** [nested_schema] at [properties.a] once pruned. *)
Definition nested_schema_a : gmap string value :=
  {[ "x-kubernetes-list-type" := VStr "set"; "type" := VStr "array" ]}.

(** An allow-listed key whose value is a mapping with a vendor key. *)
Definition validator_schema : value :=
  VDict {[ "x-kubernetes-validator" :=
             VDict {[ "x-kubernetes-foo" := VInt 1 ]} ]}.

(** The trees of the description provenance scenario. *)
Definition provenance_source : value :=
  VDict {[ "a" := VDict {[ "description" := VStr "kept" ]} ]}.

Definition provenance_resolved : value :=
  VDict {[ "a" := VDict {[ "description" := VStr "kept";
                           "b" := VDict {[ "description" := VStr "imported" ]} ]} ]}.

Definition provenance_pruned : value :=
  VDict {[ "a" := VDict {[ "description" := VStr "kept"; "b" := VDict ∅ ]} ]}.

(** A schema with a reference into itself and a reference into another
    file, and that file. *)
Definition ref_schema : value :=
  VDict {[ "type" := VStr "object";
           "definitions" :=
             VDict {[ "Name" := VDict {[ "type" := VStr "string";
                                         "description" := VStr "A name.";
                                         "x-kubernetes-foo" := VBool true ]} ]};
           "properties" :=
             VDict {[ "name" := VDict {[ "$ref" :=
                        VStr "#/components/schemas/crd_schema/definitions/Name" ]};
                      "meta" := VDict {[ "$ref" :=
                        VStr "common.yaml#/definitions/Meta" ]} ]} ]}.

Definition example_fetch (url : string) : option value :=
  if String.eqb url "common.yaml"
  then Some (VDict {[ "definitions" :=
               VDict {[ "Meta" := VDict {[ "type" := VStr "object";
                                           "description" := VStr "Shared." ]} ]} ]})
  else None.

Definition ref_schema_resolved : value :=
  VDict {[ "type" := VStr "object";
           "definitions" :=
             VDict {[ "Name" := VDict {[ "type" := VStr "string";
                                         "description" := VStr "A name." ]} ]};
           "properties" :=
             VDict {[ "name" := VDict {[ "type" := VStr "string";
                                         "description" := VStr "A name." ]};
                      "meta" := VDict {[ "type" := VStr "object";
                                         "description" := VStr "Shared." ]} ]} ]}.

(** A [v1beta1] CRD around a schema, with a label already in place. *)
Definition example_crd (apiVersion : string) (schema : value) : value :=
  VDict {[ "apiVersion" := VStr apiVersion;
           "kind" := VStr "CustomResourceDefinition";
           "metadata" :=
             VDict {[ "name" := VStr "foos.example.com";
                      "labels" := VDict {[ "app" := VStr "demo" ]} ]};
           "spec" :=
             VDict {[ "group" := VStr "example.com";
                      "validation" :=
                        VDict {[ "openAPIV3Schema" := schema ]} ]} ]}.

Definition example_patch : value :=
  VList [VDict {[ "op" := VStr "add";
                  "path" := VStr "/metadata/labels/foo";
                  "value" := VStr "bar" ]}].

Definition example_configmap : value :=
  VDict {[ "apiVersion" := VStr "v1";
           "kind" := VStr "ConfigMap";
           "metadata" := VDict {[ "name" := VStr "settings" ]} ]}.

(** A file system with one document under [crd.yaml] and the patch under
    [patch.json]. *)
Definition example_world (doc : value) : world :=
  World {[ "crd.yaml" := doc; "patch.json" := example_patch ]} VNull [].

(** ** Further notions for the properties of the code *)

(** The document that [parse_and_resolve] hands to the parser: the skeleton
    with the schema as its one component. *)
Definition openapi_document (schema : value) : value :=
  VDict {[ "openapi" := VStr "3.0.0";
           "info" := VDict {[ "version" := VStr "v1"; "title" := VStr "CRD" ]};
           "paths" := VDict ∅;
           "components" :=
             VDict {[ "schemas" := VDict {[ "crd_schema" := schema ]} ]} ]}.

(** The world once [doc] has been dumped to [destination]: one more document
    on the standard output for ["-"], the file of that name otherwise. *)
Definition dumped (destination : string) (doc : value) (w : world) : world :=
  if String.eqb destination "-"
  then World (files w) (stdin w) (stdout w ++ [doc])
  else World (<[destination := doc]> (files w)) (stdin w) (stdout w).

(** No mapping reached through mapping values holds a key that the Extension
    Pruner deletes, as a check that runs. *)
Fixpoint vendor_clean (v : value) : bool :=
  match v with
  | VDict d =>
      map_fold (λ k child acc,
        negb (pruned_key k) && vendor_clean child && acc) true d
  | _ => true
  end.

(** An operating system that opens every destination and never interrupts
    a dump. *)
Definition never_refused (path : string) (w : world) : option exn := None.

Definition never_interrupted (destination : string) (doc : value) (w : world)
    : option (exn * world) := None.

(** A schema in which one property refers to another. *)
Definition alias_schema : value :=
  VDict {[ "type" := VStr "object";
           "properties" :=
             VDict {[ "name" := VDict {[ "type" := VStr "string";
                                         "description" := VStr "A name." ]};
                      "alias" := VDict {[ "$ref" :=
                        VStr "#/components/schemas/crd_schema/properties/name" ]} ]} ]}.

Definition alias_schema_resolved : value :=
  VDict {[ "type" := VStr "object";
           "properties" :=
             VDict {[ "name" := VDict {[ "type" := VStr "string";
                                         "description" := VStr "A name." ]};
                      "alias" := VDict {[ "type" := VStr "string";
                                          "description" := VStr "A name." ]} ]} ]}.

(** A parser that finds nothing to resolve and hands its document back. *)
Definition identity_parser (doc : value) : res value := Ok doc.

(** A [v1] CRD with two versions, the second with a schema to prune. *)
Definition example_version (name : string) (schema : value) : value :=
  VDict {[ "name" := VStr name;
           "served" := VBool true;
           "schema" := VDict {[ "openAPIV3Schema" := schema ]} ]}.

Definition example_crd_v1 (versions : value) : value :=
  VDict {[ "apiVersion" := VStr "apiextensions.k8s.io/v1";
           "kind" := VStr "CustomResourceDefinition";
           "metadata" := VDict {[ "name" := VStr "foos.example.com" ]};
           "spec" := VDict {[ "group" := VStr "example.com";
                              "versions" := versions ]} ]}.

(** A schema that refers to itself. *)
Definition cyclic_schema : value :=
  VDict {[ "properties" :=
             VDict {[ "self" := VDict {[ "$ref" :=
                        VStr "#/components/schemas/crd_schema" ]} ]} ]}.

(** [nested_schema] once pruned. *)
Definition nested_schema_pruned : value :=
  VDict {[ "properties" := VDict {[ "a" := VDict nested_schema_a ]} ]}.

(** The entries of [example_crd], level by level. *)
Definition example_validation (schema : value) : gmap string value :=
  {[ "openAPIV3Schema" := schema ]}.

Definition example_spec (schema : value) : gmap string value :=
  {[ "group" := VStr "example.com";
     "validation" := VDict (example_validation schema) ]}.

Definition example_crd_entries (apiVersion : string) (schema : value)
    : gmap string value :=
  {[ "apiVersion" := VStr apiVersion;
     "kind" := VStr "CustomResourceDefinition";
     "metadata" :=
       VDict {[ "name" := VStr "foos.example.com";
                "labels" := VDict {[ "app" := VStr "demo" ]} ]};
     "spec" := VDict (example_spec schema) ]}.

(** A [v1beta1] CRD with no [validation] in its [spec]. *)
Definition unvalidated_crd_entries : gmap string value :=
  {[ "apiVersion" := VStr "apiextensions.k8s.io/v1beta1";
     "kind" := VStr "CustomResourceDefinition";
     "spec" := VDict {[ "group" := VStr "example.com" ]} ]}.

(** A document with neither [kind] nor [apiVersion], and one with no
    [apiVersion]. *)
Definition kindless_entries : gmap string value :=
  {[ "metadata" := VDict {[ "name" := VStr "settings" ]} ]}.

Definition versionless_entries : gmap string value :=
  {[ "kind" := VStr "CustomResourceDefinition";
     "metadata" := VDict {[ "name" := VStr "foos.example.com" ]} ]}.

(** ** Induction over documents *)

Lemma value_size_lookup (d : gmap string value) k x :
  d !! k = Some x → value_size x < value_size (VDict d).
Proof.
  intros Hk. simpl.
  rewrite (map_fold_delete_L _ 0 k x d); [lia | intros; lia | done].
Qed.

Lemma value_size_elem (l : list value) x :
  x ∈ l → value_size x < value_size (VList l).
Proof.
  simpl. induction 1 as [x l | x y l _ IH]; simpl in *; lia.
Qed.

Lemma value_nested_ind (P : value → Prop) :
  P VNull →
  (∀ b, P (VBool b)) →
  (∀ n, P (VInt n)) →
  (∀ text, P (VFloat text)) →
  (∀ s, P (VStr s)) →
  (∀ l, Forall P l → P (VList l)) →
  (∀ d, map_Forall (λ _, P) d → P (VDict d)) →
  ∀ v, P v.
Proof.
  intros Hnull Hbool Hint Hfloat Hstr Hlist Hdict v.
  remember (value_size v) as n eqn:Hn.
  revert v Hn. induction n as [n IH] using lt_wf_ind. intros v ->.
  destruct v as [| | | | |l|d]; auto.
  - apply Hlist, Forall_forall. intros x Hx.
    eapply IH; [by apply value_size_elem | done].
  - apply Hdict. intros k x Hk.
    eapply IH; [by eapply value_size_lookup | done].
Qed.

(** ** The pruners, entry by entry *)

(** A loop over a snapshot of a dict whose body touches only the entry it
    visits, deleting or overwriting it, leaves under each key what the body
    decides for that entry. *)
Lemma update_loop_lookup
    (f : string → value → gmap string value → gmap string value)
    (body : string → value → option value) (d : gmap string value) k :
  (∀ i x acc j, f i x acc !! j = if decide (i = j) then body i x else acc !! j) →
  map_fold f d d !! k = d !! k ≫= body k.
Proof.
  intros Hf.
  enough (H : ∀ start j, map_fold f start d !! j =
            match d !! j with Some x => body j x | None => start !! j end).
  { rewrite H. by destruct (d !! k). }
  intros start.
  apply (map_fold_weak_ind (λ r (m : gmap string value),
    ∀ j, r !! j = match m !! j with Some x => body j x | None => start !! j end)).
  - intros j. by rewrite lookup_empty.
  - intros i x m r Hi IH j. rewrite Hf. case_decide as Hij.
    + subst j. by rewrite lookup_insert_eq.
    + by rewrite lookup_insert_ne, IH.
Qed.

Lemma remove_k8s_extentions_dict (d : gmap string value) :
  remove_k8s_extentions (VDict d) = VDict (map_imap extension_entry d).
Proof.
  simpl. f_equal. apply map_eq. intros k.
  rewrite map_lookup_imap. apply update_loop_lookup.
  intros i x acc j. unfold extension_entry.
  destruct (pruned_key i); case_decide; simplify_map_eq; done.
Qed.

Lemma remove_k8s_descriptions_dict (d : gmap string value) source_schema :
  remove_k8s_descriptions (VDict d) source_schema
  = VDict (map_imap (description_entry source_schema) d).
Proof.
  simpl. f_equal. apply map_eq. intros k.
  rewrite map_lookup_imap. apply update_loop_lookup.
  intros i x acc j. unfold description_entry.
  destruct (source_child source_schema i); [|destruct (String.eqb i "description")];
    case_decide; simplify_map_eq; done.
Qed.

(** From here on the pruners are unfolded through these two equations only. *)
#[global] Arguments remove_k8s_extentions : simpl never.
#[global] Arguments remove_k8s_descriptions : simpl never.

Lemma remove_k8s_extentions_not_dict v :
  is_dict v = false → remove_k8s_extentions v = v.
Proof. by destruct v. Qed.

Lemma remove_k8s_descriptions_not_dict v source_schema :
  is_dict v = false → remove_k8s_descriptions v source_schema = v.
Proof. by destruct v. Qed.

Lemma extension_entry_kept k child :
  pruned_key k = false →
  extension_entry k child = Some (remove_k8s_extentions child).
Proof. unfold extension_entry. by intros ->. Qed.

Lemma extension_entry_Some k child x :
  extension_entry k child = Some x →
  pruned_key k = false ∧ x = remove_k8s_extentions child.
Proof. unfold extension_entry. destruct (pruned_key k); naive_solver. Qed.

Lemma allowed_spec k : allowed k = true ↔ k ∈ K8S_SCHEMA_EXTENSIONS.
Proof. apply bool_decide_eq_true. Qed.

Lemma pruned_key_false k :
  pruned_key k = false → is_vendor k = true → k ∈ K8S_SCHEMA_EXTENSIONS.
Proof.
  unfold pruned_key, allowed. intros H Hv. rewrite Hv in H. simpl in H.
  apply negb_false_iff, bool_decide_eq_true in H. done.
Qed.

Lemma allowed_not_pruned k : k ∈ K8S_SCHEMA_EXTENSIONS → pruned_key k = false.
Proof.
  intros H. unfold pruned_key, allowed.
  rewrite (bool_decide_eq_true_2 _ H). apply andb_false_r.
Qed.

(** ** The Extension Pruner along a path *)

(** Split on the shape of the tree [t] that a pruner was run on: what is not a
    dict comes back as it was. *)
Ltac not_dict_cases t d :=
  destruct t as [| | | | | |d];
  rewrite ?remove_k8s_extentions_not_dict, ?remove_k8s_descriptions_not_dict
    in * by done.

(** Along mapping keys the pruner reaches every node it keeps. *)
Lemma remove_k8s_extentions_keys ks : ∀ t v',
  get_path (Key <$> ks) (remove_k8s_extentions t) = Some v' →
  ∃ v, get_path (Key <$> ks) t = Some v ∧ v' = remove_k8s_extentions v.
Proof.
  induction ks as [|k ks IH]; intros t v' Hp; simpl in *.
  { exists t. naive_solver. }
  not_dict_cases t d; try done.
  rewrite remove_k8s_extentions_dict in Hp. simpl in *.
  rewrite map_lookup_imap in Hp.
  destruct (d !! k) as [x|] eqn:Hk; simpl in *; [|done].
  destruct (extension_entry k x) as [x'|] eqn:He; simpl in Hp; [|done].
  apply extension_entry_Some in He as [_ ->]. by apply IH.
Qed.

(** Along any path that the pruner keeps, the node of the result is the node
    of the argument, pruned when only mapping keys lead to it. *)
Lemma remove_k8s_extentions_path p : ∀ t,
  path_kept p = true →
  get_path p (remove_k8s_extentions t)
  = (if forallb is_key p then remove_k8s_extentions else id) <$> get_path p t.
Proof.
  induction p as [|[k|i] p IH]; intros t Hkept; simpl in *; [done| |].
  - apply andb_true_iff in Hkept as [Hk Hkept]. apply negb_true_iff in Hk.
    not_dict_cases t d; try done.
    rewrite remove_k8s_extentions_dict. simpl. rewrite map_lookup_imap.
    destruct (d !! k) as [x|]; simpl; [|done].
    rewrite (extension_entry_kept _ _ Hk). simpl. by apply IH.
  - not_dict_cases t d; try done.
    simpl. by destruct (_ ≫= _).
Qed.

(** Whatever is found in the result was in the argument at the same place,
    and it is that node itself or that node pruned. *)
Lemma remove_k8s_extentions_origin p : ∀ t v',
  get_path p (remove_k8s_extentions t) = Some v' →
  ∃ v, get_path p t = Some v ∧ (v' = v ∨ v' = remove_k8s_extentions v).
Proof.
  induction p as [|[k|i] p IH]; intros t v' Hp; simpl in *.
  - exists t. naive_solver.
  - not_dict_cases t d; try done.
    rewrite remove_k8s_extentions_dict in Hp. simpl in *.
    rewrite map_lookup_imap in Hp.
    destruct (d !! k) as [x|] eqn:Hk; simpl in *; [|done].
    destruct (extension_entry k x) as [x'|] eqn:He; simpl in Hp; [|done].
    apply extension_entry_Some in He as [_ ->]. by apply IH.
  - not_dict_cases t d; try done.
    exists v'. naive_solver.
Qed.

Lemma extension_entries_dom (d : gmap string value) :
  dom (map_imap extension_entry d) ⊆ dom d.
Proof.
  intros k. rewrite !elem_of_dom, map_lookup_imap.
  destruct (d !! k); [eauto | by intros [? ?]].
Qed.

(** ** The Extension Pruner: the properties *)

(** C3, as the program has it: after [remove_k8s_extentions], no mapping
    reached from the root through mapping values only holds a key that starts
    with [x-kubernetes-] and is outside the allow-list.  Sequences are not
    entered, so the mappings inside them are out of its reach. *)
Theorem remove_k8s_extentions_prunes_below_keys t ks d k :
  get_path (Key <$> ks) (remove_k8s_extentions t) = Some (VDict d) →
  is_Some (d !! k) →
  is_vendor k = true →
  k ∈ K8S_SCHEMA_EXTENSIONS.
Proof.
  intros Hp Hk Hv.
  apply remove_k8s_extentions_keys in Hp as (v & _ & Hd).
  apply pruned_key_false; [|done].
  not_dict_cases v d'; try done.
  rewrite remove_k8s_extentions_dict in Hd. injection Hd as ->.
  rewrite map_lookup_imap in Hk. destruct Hk as [x Hx].
  destruct (d' !! k) as [y|]; simpl in Hx; [|done].
  by apply extension_entry_Some in Hx as [? _].
Qed.

Lemma remove_k8s_extentions_prunes_below_keys_witness :
  get_path (Key <$> ["properties"; "a"]) (remove_k8s_extentions nested_schema)
    = Some (VDict nested_schema_a) ∧
  is_Some (nested_schema_a !! "x-kubernetes-list-type") ∧
  is_vendor "x-kubernetes-list-type" = true ∧
  "x-kubernetes-list-type" ∈ K8S_SCHEMA_EXTENSIONS.
Proof.
  assert (Hp : get_path (Key <$> ["properties"; "a"])
                 (remove_k8s_extentions nested_schema)
               = Some (VDict nested_schema_a)) by (vm_compute; reflexivity).
  assert (Hk : is_Some (nested_schema_a !! "x-kubernetes-list-type"))
    by (vm_compute; eauto).
  split_and!; [done | done | reflexivity |].
  exact (remove_k8s_extentions_prunes_below_keys nested_schema
           ["properties"; "a"] nested_schema_a "x-kubernetes-list-type"
           Hp Hk eq_refl).
Defined.

(** C3 as stated fails: the vendor key of a mapping that is an element of a
    sequence is still there after pruning. *)
Lemma remove_k8s_extentions_skips_sequences :
  ¬ vendor_free_everywhere (remove_k8s_extentions sequence_schema).
Proof.
  intros H.
  specialize (H [Key "allOf"; Idx 0] {[ "x-kubernetes-foo" := VInt 1 ]}
                "x-kubernetes-foo").
  assert (Hin : "x-kubernetes-foo" ∈ K8S_SCHEMA_EXTENSIONS).
  { apply H; [by vm_compute | by rewrite lookup_singleton_eq | reflexivity]. }
  apply allowed_spec in Hin. by vm_compute in Hin.
Qed.

(** C4, as the program has it: an allow-listed key [K] is never deleted.  At a
    position that the pruner keeps, the mapping still holds [K] afterwards;
    its value [V] is unchanged, except that a mapping reached through mapping
    keys only is itself pruned. *)
Theorem remove_k8s_extentions_keeps_allowed t p d K V :
  K ∈ K8S_SCHEMA_EXTENSIONS →
  path_kept p = true →
  get_path p t = Some (VDict d) →
  d !! K = Some V →
  get_path (p ++ [Key K]) (remove_k8s_extentions t)
  = Some (if forallb is_key p && is_dict V
          then remove_k8s_extentions V else V).
Proof.
  intros HK Hkept Hp HV.
  assert (Hkept' : path_kept (p ++ [Key K]) = true).
  { clear Hp. induction p as [|[k|i] p IH]; simpl in *.
    - by rewrite (allowed_not_pruned _ HK).
    - apply andb_true_iff in Hkept as [-> ?]. simpl. by apply IH.
    - done. }
  assert (Hget : get_path (p ++ [Key K]) t = Some V).
  { clear Hkept Hkept'. revert t Hp.
    induction p as [|st p IH]; intros t Hp; simpl in *.
    - injection Hp as ->. simpl. by rewrite HV.
    - destruct (get_step st t); simpl in *; [by apply IH | done]. }
  rewrite remove_k8s_extentions_path, Hget by done. simpl.
  rewrite forallb_app. simpl. rewrite andb_true_r.
  destruct (forallb is_key p); simpl; [|done].
  destruct (is_dict V) eqn:HdV; [done|].
  by rewrite remove_k8s_extentions_not_dict.
Qed.

Lemma remove_k8s_extentions_keeps_allowed_witness :
  "x-kubernetes-list-type" ∈ K8S_SCHEMA_EXTENSIONS ∧
  path_kept [Key "properties"; Key "a"] = true ∧
  get_path [Key "properties"; Key "a"] nested_schema
    = Some (VDict (<["x-kubernetes-bar" := VBool true]> nested_schema_a)) ∧
  <["x-kubernetes-bar" := VBool true]> nested_schema_a
    !! "x-kubernetes-list-type" = Some (VStr "set") ∧
  get_path [Key "properties"; Key "a"; Key "x-kubernetes-list-type"]
    (remove_k8s_extentions nested_schema) = Some (VStr "set").
Proof.
  assert (HK : "x-kubernetes-list-type" ∈ K8S_SCHEMA_EXTENSIONS)
    by (apply allowed_spec; by vm_compute).
  assert (Hp : get_path [Key "properties"; Key "a"] nested_schema
               = Some (VDict (<["x-kubernetes-bar" := VBool true]> nested_schema_a)))
    by (vm_compute; reflexivity).
  assert (HV : <["x-kubernetes-bar" := VBool true]> nested_schema_a
               !! "x-kubernetes-list-type" = Some (VStr "set"))
    by (vm_compute; reflexivity).
  split_and!; [done | reflexivity | done | done |].
  exact (remove_k8s_extentions_keeps_allowed nested_schema
           [Key "properties"; Key "a"] _ "x-kubernetes-list-type" (VStr "set")
           HK eq_refl Hp HV).
Defined.

(** C4 as stated fails: the value of an allow-listed key is itself pruned, so
    a mapping under it does not come back unchanged. *)
Lemma remove_k8s_extentions_prunes_allowed_value :
  "x-kubernetes-validator" ∈ K8S_SCHEMA_EXTENSIONS ∧
  get_path [Key "x-kubernetes-validator"] validator_schema
    = Some (VDict {[ "x-kubernetes-foo" := VInt 1 ]}) ∧
  get_path [Key "x-kubernetes-validator"]
    (remove_k8s_extentions validator_schema)
    ≠ Some (VDict {[ "x-kubernetes-foo" := VInt 1 ]}).
Proof.
  split_and!.
  - apply allowed_spec. by vm_compute.
  - by vm_compute.
  - assert (Hp : get_path [Key "x-kubernetes-validator"]
                   (remove_k8s_extentions validator_schema)
                 = Some (VDict ∅)) by (vm_compute; reflexivity).
    rewrite Hp. by intros [=].
Qed.

(** C7: pruning a second time changes nothing. *)
Theorem remove_k8s_extentions_idempotent t :
  remove_k8s_extentions (remove_k8s_extentions t) = remove_k8s_extentions t.
Proof.
  induction t as [| | | | |l _|d IH] using value_nested_ind; try done.
  rewrite !remove_k8s_extentions_dict. f_equal. apply map_eq. intros k.
  rewrite !map_lookup_imap.
  destruct (d !! k) as [x|] eqn:Hk; simpl; [|done].
  unfold extension_entry at 2 3.
  destruct (pruned_key k) eqn:Hpk; simpl; [done|].
  rewrite extension_entry_kept by done. f_equal. by eapply IH.
Qed.

(** C10: the pruner only deletes mapping entries.  Every node of the result
    sits at the same place in the argument; a mapping has no key that it did
    not have before, and a scalar or a sequence is what it was. *)
Theorem remove_k8s_extentions_shrinks t p v' :
  get_path p (remove_k8s_extentions t) = Some v' →
  ∃ v, get_path p t = Some v ∧
    match v' with
    | VDict d' => ∃ d, v = VDict d ∧ dom d' ⊆ dom d
    | _ => v = v'
    end.
Proof.
  intros Hp. apply remove_k8s_extentions_origin in Hp as (v & Hv & [->| ->]).
  - exists v. split; [done|]. destruct v; eauto.
  - exists v. split; [done|]. not_dict_cases v d; try done.
    rewrite remove_k8s_extentions_dict. eauto using extension_entries_dom.
Qed.

Lemma remove_k8s_extentions_shrinks_witness :
  get_path [Key "properties"; Key "a"] (remove_k8s_extentions nested_schema)
    = Some (VDict nested_schema_a) ∧
  ∃ v, get_path [Key "properties"; Key "a"] nested_schema = Some v ∧
       ∃ d, v = VDict d ∧ dom nested_schema_a ⊆ dom d.
Proof.
  assert (Hp : get_path [Key "properties"; Key "a"]
                 (remove_k8s_extentions nested_schema)
               = Some (VDict nested_schema_a)) by (vm_compute; reflexivity).
  split; [done|].
  exact (remove_k8s_extentions_shrinks nested_schema
           [Key "properties"; Key "a"] (VDict nested_schema_a) Hp).
Defined.

(** ** The Description Pruner: the properties *)

(** C9: with the tree itself as the source nothing is removed. *)
Theorem remove_k8s_descriptions_same_source t :
  remove_k8s_descriptions t t = t.
Proof.
  induction t as [| | | | |l _|d IH] using value_nested_ind; try done.
  rewrite remove_k8s_descriptions_dict. f_equal. apply map_eq. intros k.
  rewrite map_lookup_imap.
  destruct (d !! k) as [x|] eqn:Hk; simpl; [|done].
  unfold description_entry. simpl. rewrite Hk. f_equal. by eapply IH.
Qed.

Lemma remove_k8s_descriptions_origin p : ∀ t src v',
  get_path p (remove_k8s_descriptions t src) = Some v' →
  ∃ v src', get_path p t = Some v ∧
    (v' = v ∨ v' = remove_k8s_descriptions v src').
Proof.
  induction p as [|[k|i] p IH]; intros t src v' Hp; simpl in *.
  - exists t, src. naive_solver.
  - not_dict_cases t d; try done.
    rewrite remove_k8s_descriptions_dict in Hp. simpl in *.
    rewrite map_lookup_imap in Hp.
    destruct (d !! k) as [x|] eqn:Hk; simpl in *; [|done].
    unfold description_entry in Hp.
    destruct (source_child src k); [|destruct (String.eqb k "description")];
      simpl in Hp; try done; by eapply IH.
  - not_dict_cases t d; try done.
    exists v', VNull. naive_solver.
Qed.

(** C5: the description imported under [a.b] is removed and the one that the
    source has at [a] is kept. *)
Theorem remove_k8s_descriptions_provenance :
  remove_k8s_descriptions provenance_resolved provenance_source
  = provenance_pruned.
Proof. vm_compute. reflexivity. Qed.

(** ** Reference-free documents *)

Lemma ref_free_not_container v :
  match v with VDict _ | VList _ => False | _ => True end → ref_free v.
Proof. intros Hv [|[k|i] p] d; destruct v; naive_solver. Qed.

Lemma ref_free_list l : Forall ref_free l → ref_free (VList l).
Proof.
  intros Hl [|[k|i] p] d Hp; simpl in *; try done.
  destruct (l !! i) as [x|] eqn:Hi; simpl in *; [|done].
  eapply (Forall_lookup_1 _ _ _ _ Hl Hi), Hp.
Qed.

Lemma ref_free_dict (d : gmap string value) :
  d !! "$ref" = None → map_Forall (λ _, ref_free) d → ref_free (VDict d).
Proof.
  intros Href Hd [|[k|i] p] d' Hp; simpl in *; try done.
  - by injection Hp as <-.
  - destruct (d !! k) as [x|] eqn:Hk; simpl in *; [|done].
    eapply (Hd k x Hk), Hp.
Qed.

Lemma ref_free_get_path p v x :
  ref_free v → get_path p v = Some x → ref_free x.
Proof.
  intros Hv Hp q d Hq. apply (Hv (p ++ q)).
  clear Hv. revert v Hp. induction p as [|st p IH]; intros v Hp; simpl in *.
  - by injection Hp as ->.
  - destruct (get_step st v); simpl in *; [by apply IH | done].
Qed.

Lemma ref_free_getitem v k x : ref_free v → getitem v k = Ok x → ref_free x.
Proof.
  intros Hv Hk. apply (ref_free_get_path [Key k] v); [done|].
  destruct v as [| | | | | |d]; simpl in *; try done.
  destruct (d !! k); naive_solver.
Qed.

Lemma remove_k8s_extentions_ref_free v :
  ref_free v → ref_free (remove_k8s_extentions v).
Proof.
  intros Hv p d' Hp.
  apply remove_k8s_extentions_origin in Hp as (x & Hx & [Heq|Heq]).
  { subst x. by eapply Hv. }
  not_dict_cases x d; try done.
  rewrite remove_k8s_extentions_dict in Heq. injection Heq as ->.
  by rewrite map_lookup_imap, (Hv p d Hx).
Qed.

Lemma remove_k8s_descriptions_ref_free v src :
  ref_free v → ref_free (remove_k8s_descriptions v src).
Proof.
  intros Hv p d' Hp.
  apply remove_k8s_descriptions_origin in Hp as (x & src' & Hx & [Heq|Heq]).
  { subst x. by eapply Hv. }
  not_dict_cases x d; try done.
  rewrite remove_k8s_descriptions_dict in Heq. injection Heq as ->.
  by rewrite map_lookup_imap, (Hv p d Hx).
Qed.

(** ** The Reference Resolver: the properties *)

Lemma map_sequence_lookup m out k :
  map_sequence m = Some out → out !! k = m !! k ≫= id.
Proof.
  unfold map_sequence. case_decide; [|done].
  intros [= <-]. apply lookup_omap.
Qed.

Lemma map_sequence_same (f : value → option value) (d : gmap string value) :
  map_Forall (λ _ x, f x = Some x) d → map_sequence (f <$> d) = Some d.
Proof.
  intros Hd. unfold map_sequence. rewrite decide_True.
  - f_equal. apply map_eq. intros k. rewrite lookup_omap, lookup_fmap.
    destruct (d !! k) as [x|] eqn:Hk; simpl; [|done]. by rewrite (Hd k x Hk).
  - intros k o. rewrite lookup_fmap.
    destruct (d !! k) as [x|] eqn:Hk; simpl; [|done].
    intros [= <-]. rewrite (Hd k x Hk). eauto.
Qed.

(** The pass, one level at a time. *)
Lemma resolve_refs_eq fetch limit root node :
  resolve_refs fetch limit root node
  = match node with
    | VDict d =>
        match d !! "$ref" with
        | Some (VStr ref) =>
            match limit with
            | 0 => None
            | S limit =>
                '(root', target) ← locate fetch root ref;
                resolve_refs fetch limit root' target
            end
        | Some _ => None
        | None =>
            VDict <$> map_sequence (resolve_refs fetch limit root <$> d)
        end
    | VList l => VList <$> mapM (resolve_refs fetch limit root) l
    | _ => Some node
    end.
Proof. destruct limit, node; reflexivity. Qed.

Lemma resolve_refs_dict fetch limit root (d : gmap string value) out :
  d !! "$ref" = None →
  resolve_refs fetch limit root (VDict d) = Some out →
  ∃ d' : gmap string value,
    out = VDict d' ∧ ∀ k, d' !! k = d !! k ≫= resolve_refs fetch limit root.
Proof.
  intros Href. rewrite resolve_refs_eq, Href. intros H.
  destruct (map_sequence _) as [d'|] eqn:Hd; simpl in H; [|done].
  injection H as <-. exists d'. split; [done|]. intros k.
  rewrite (map_sequence_lookup _ _ _ Hd), lookup_fmap.
  by destruct (d !! k).
Qed.

(** Below the keys of a mapping that is no reference the pass has resolved,
    one by one, the children of the mapping. *)
Lemma resolve_refs_getitem fetch limit root (d : gmap string value) out k x :
  d !! "$ref" = None →
  resolve_refs fetch limit root (VDict d) = Some out →
  getitem out k = Ok x →
  ∃ y, d !! k = Some y ∧ resolve_refs fetch limit root y = Some x.
Proof.
  intros Href Hres Hk.
  apply resolve_refs_dict in Hres as (d' & -> & Hd'); [|done].
  simpl in Hk. specialize (Hd' k).
  destruct (d' !! k) as [x'|]; [|done]. injection Hk as ->.
  destruct (d !! k) as [y|]; [|done]. eauto.
Qed.

(** The references that a level may follow are sound when those of the
    levels inside it are. *)
Lemma resolve_refs_walk fetch limit root :
  (∀ (d : gmap string value) ref out,
     d !! "$ref" = Some (VStr ref) →
     resolve_refs fetch limit root (VDict d) = Some out →
     resolved_from fetch root (VDict d) out ∧ ref_free out) →
  ∀ node out,
    resolve_refs fetch limit root node = Some out →
    resolved_from fetch root node out ∧ ref_free out.
Proof.
  intros Hrefs node.
  induction node as [| | | | |l IH|d IH] using value_nested_ind; intros out H;
    pose proof H as H0; rewrite resolve_refs_eq in H;
    try (injection H as <-;
         split; [by constructor | by apply ref_free_not_container]).
  - destruct (mapM _ l) as [l'|] eqn:Hl; simpl in H; [|done].
    injection H as <-. apply mapM_Some in Hl.
    assert (Hall : Forall2 (λ x y, resolved_from fetch root x y ∧ ref_free y)
                     l l').
    { clear H0. revert IH.
      induction Hl as [|x y l l' Hxy Hl IHl]; intros IH; [constructor|].
      apply Forall_cons in IH as [Hx IH]. constructor; auto. }
    split.
    + constructor. eapply Forall2_impl; [exact Hall|]. by intros ?? [??].
    + apply ref_free_list. clear Hl IH H0.
      induction Hall as [|x y l1 l1' [_ Hy] _ IHall]; by constructor.
  - destruct (d !! "$ref") as [[| | | |ref| |]|] eqn:Href; try done.
    { by eapply Hrefs. }
    destruct (map_sequence _) as [d'|] eqn:Hd; simpl in H; [|done].
    injection H as <-.
    assert (Hk : ∀ k, d' !! k = d !! k ≫= resolve_refs fetch limit root).
    { intros k. rewrite (map_sequence_lookup _ _ _ Hd), lookup_fmap.
      by destruct (d !! k). }
    split.
    + constructor; [done|]. intros k. rewrite Hk.
      destruct (d !! k) as [x|] eqn:Hx; simpl; [|constructor].
      destruct (resolve_refs fetch limit root x) as [y|] eqn:Hy.
      * constructor. by apply (IH k x Hx).
      * assert (Hnone : d' !! k = None) by by rewrite Hk, Hx.
        unfold map_sequence in Hd. case_decide as Hall; [|done].
        destruct (Hall k None); [|done].
        by rewrite lookup_fmap, Hx; simpl; rewrite Hy.
    + apply ref_free_dict; [by rewrite Hk, Href|].
      intros k y Hy. rewrite Hk in Hy.
      destruct (d !! k) as [x|] eqn:Hx; simpl in Hy; [|done].
      by apply (IH k x Hx).
Qed.

(** What the pass returns is the node with its references replaced by the
    content of their targets, and no reference is left in it. *)
Lemma resolve_refs_sound fetch limit : ∀ root node out,
  resolve_refs fetch limit root node = Some out →
  resolved_from fetch root node out ∧ ref_free out.
Proof.
  induction limit as [|limit IH]; intros root; apply resolve_refs_walk;
    intros d ref out Href H; rewrite resolve_refs_eq, Href in H; [done|].
  destruct (locate fetch root ref) as [[root' target]|] eqn:Hloc;
    simpl in H; [|done].
  apply IH in H as [Hres Hfree]. split; [|done].
  by eapply resolved_ref.
Qed.

Lemma resolve_refs_ref_free fetch limit root node out :
  resolve_refs fetch limit root node = Some out → ref_free out.
Proof. intros H. by apply resolve_refs_sound in H as [_ ?]. Qed.

(** The pass returns a document without references as it is, whatever the
    limit and however deep the document. *)
Lemma resolve_refs_ref_free_input fetch limit root node :
  ref_free node → resolve_refs fetch limit root node = Some node.
Proof.
  induction node as [| | | | |l IH|d IH] using value_nested_ind; intros Hfree;
    rewrite resolve_refs_eq; try done.
  - assert (Hl : mapM (resolve_refs fetch limit root) l = Some l).
    { apply mapM_Some. apply Forall2_same_length_lookup. split; [done|].
      intros i x y Hx Hy. simplify_eq.
      apply (Forall_lookup_1 _ _ _ _ IH Hx).
      apply (ref_free_get_path [Idx i] (VList l)); [done|].
      simpl. by rewrite Hx. }
    by rewrite Hl.
  - rewrite (Hfree [] d eq_refl).
    rewrite (map_sequence_same (resolve_refs fetch limit root) d); [done|].
    intros k x Hk. apply (IH k x Hk).
    apply (ref_free_get_path [Key k] (VDict d)); [done|]. simpl. by rewrite Hk.
Qed.

Lemma res_bind_Ok {A B} (f : A → res B) (r : res A) b :
  r ≫= f = Ok b → ∃ a, r = Ok a ∧ f a = Ok b.
Proof. destruct r; naive_solver. Qed.

Lemma parse_and_resolve_unfold RP schema rd :
  parse_and_resolve RP schema rd
  = (specification ← RP (openapi_document schema);
     components ← getitem specification "components";
     schemas ← getitem components "schemas";
     resolved_schema ← getitem schemas "crd_schema";
     mret (if rd
           then remove_k8s_descriptions
                  (remove_k8s_extentions resolved_schema) schema
           else remove_k8s_extentions resolved_schema)).
Proof. reflexivity. Qed.

(** The component [crd_schema] of the resolved skeleton is the schema,
    resolved against the skeleton around it. *)
Lemma resolve_refs_crd_schema fetch limit schema specification components
    schemas resolved :
  resolve_refs fetch limit (openapi_document schema) (openapi_document schema)
    = Some specification →
  getitem specification "components" = Ok components →
  getitem components "schemas" = Ok schemas →
  getitem schemas "crd_schema" = Ok resolved →
  resolve_refs fetch limit (openapi_document schema) schema = Some resolved.
Proof.
  intros Hspec Hc Hs Hr. unfold openapi_document in Hspec at 2.
  pose proof (λ H, resolve_refs_getitem _ _ _ _ _ _ _ H Hspec Hc) as Hc'.
  destruct (Hc' eq_refl) as (c & [= <-] & Hcres).
  pose proof (λ H, resolve_refs_getitem _ _ _ _ _ _ _ H Hcres Hs) as Hs'.
  destruct (Hs' eq_refl) as (s & [= <-] & Hsres).
  pose proof (λ H, resolve_refs_getitem _ _ _ _ _ _ _ H Hsres Hr) as Hr'.
  destruct (Hr' eq_refl) as (r & [= <-] & Hrres).
  done.
Qed.

(** C8: when resolution succeeds, what [parse_and_resolve] returns has no
    [$ref] key at any depth, and it is the schema with every reference node
    replaced by the content of its target, then pruned.  The resolving pass is
    the library's, taken here as the specification words it. *)
Theorem parse_and_resolve_ref_free fetch limit schema remove_desciptions out :
  parse_and_resolve (ResolvingParser_spec fetch limit) schema remove_desciptions
    = Ok out →
  ref_free out ∧
  ∃ resolved,
    resolved_from fetch (openapi_document schema) schema resolved ∧
    out = (if remove_desciptions
           then remove_k8s_descriptions (remove_k8s_extentions resolved) schema
           else remove_k8s_extentions resolved).
Proof.
  rewrite parse_and_resolve_unfold. intros H.
  apply res_bind_Ok in H as (specification & Hparse & H).
  apply res_bind_Ok in H as (components & Hc & H).
  apply res_bind_Ok in H as (schemas & Hs & H).
  apply res_bind_Ok in H as (resolved & Hr & H).
  injection H as <-.
  unfold ResolvingParser_spec in Hparse.
  destruct (resolve_refs _ _ _ _) as [spec|] eqn:Hres; [|done].
  injection Hparse as ->.
  pose proof (resolve_refs_crd_schema _ _ _ _ _ _ _ Hres Hc Hs Hr) as Hschema.
  apply resolve_refs_sound in Hschema as [Hfrom Hfree].
  split; [|by exists resolved].
  destruct remove_desciptions;
    eauto using remove_k8s_extentions_ref_free, remove_k8s_descriptions_ref_free.
Qed.

Lemma parse_and_resolve_ref_free_witness :
  parse_and_resolve (ResolvingParser_spec example_fetch 10) alias_schema false
    = Ok alias_schema_resolved ∧
  ref_free alias_schema_resolved ∧
  ∃ resolved,
    resolved_from example_fetch (openapi_document alias_schema) alias_schema
      resolved ∧
    alias_schema_resolved = remove_k8s_extentions resolved.
Proof.
  assert (H : parse_and_resolve (ResolvingParser_spec example_fetch 10)
                alias_schema false = Ok alias_schema_resolved)
    by (vm_compute; reflexivity).
  split; [done|].
  exact (parse_and_resolve_ref_free example_fetch 10 alias_schema false
           alias_schema_resolved H).
Defined.

(** ** The driver: the properties *)

(** The [jsonpatch] argument never reaches the patching step: line 109
    rebinds it to [None] before it is read. *)
Lemma resolve_ignores_jsonpatch RP JB JA OR DI source destination jsonpatch rd :
  resolve RP JB JA OR DI source destination jsonpatch rd
  = resolve RP JB JA OR DI source destination None rd.
Proof. reflexivity. Qed.

(** C1 fails on the program: run on a [v1beta1] CRD with the patch file of the
    scenario, [resolve] succeeds and writes the resolved CRD without the
    label; the patch is never loaded, whatever the patch library does. *)
Theorem resolve_drops_jsonpatch JB JA :
  let crd := example_crd "apiextensions.k8s.io/v1beta1" ref_schema in
  let out := example_crd "apiextensions.k8s.io/v1beta1" ref_schema_resolved in
  resolve (ResolvingParser_spec example_fetch 10) JB JA
    never_refused never_interrupted
    "crd.yaml" "out.yaml" (Some "patch.json") false (example_world crd)
  = (Ok (), World (<["out.yaml" := out]> (files (example_world crd))) VNull [])
  ∧ ¬ has_label_foo_bar out.
Proof. split; [vm_compute; reflexivity|]. by vm_compute. Qed.

(** What the last branch of the version dispatch does: it reads
    [source['version']] to build its message, and a CRD has no such key. *)
Lemma resolve_unsupported_version RP JB JA OR DI source destination jsonpatch rd w
    doc kind apiVersion :
  input_document source w = Some doc →
  getitem doc "kind" = Ok kind →
  py_eq_str kind "CustomResourceDefinition" = true →
  getitem doc "apiVersion" = Ok apiVersion →
  py_eq_str apiVersion "apiextensions.k8s.io/v1beta1" = false →
  py_eq_str apiVersion "apiextensions.k8s.io/v1" = false →
  resolve RP JB JA OR DI source destination jsonpatch rd w
  = (match getitem doc "version" with
     | Ok version => Raise (TypeError "Unsupported CRD version {}" [version])
     | Raise e => Raise e
     end, w).
Proof.
  unfold resolve, input_document. intros Hdoc Hkind Hcrd Hapi Hbeta Hv1.
  unfold mbind, io_bind, lift, raise, read_file, read_stdin.
  destruct (String.eqb source "-"); simpl;
    [injection Hdoc as -> | rewrite Hdoc];
    rewrite Hkind, Hcrd; simpl; rewrite Hapi, Hbeta, Hv1;
    by destruct (getitem doc "version").
Qed.

(** C2 fails on the program: for a CRD of an unsupported version the run ends
    in [KeyError: 'version'], not in the [TypeError] of line 127. *)
Theorem resolve_unsupported_version_KeyError RP JB JA OR DI :
  let crd := example_crd "apiextensions.k8s.io/v2" ref_schema in
  resolve RP JB JA OR DI "crd.yaml" "out.yaml" None false (example_world crd)
  = (Raise (KeyError "version"), example_world crd).
Proof. vm_compute. reflexivity. Qed.

(** C6: a document whose [kind] is not [CustomResourceDefinition] ends the run
    in the [TypeError] of line 115, and the world is as it was: nothing has
    been written to the destination. *)
Theorem resolve_wrong_kind RP JB JA OR DI source destination jsonpatch rd w doc kind :
  input_document source w = Some doc →
  getitem doc "kind" = Ok kind →
  py_eq_str kind "CustomResourceDefinition" = false →
  resolve RP JB JA OR DI source destination jsonpatch rd w
  = (Raise (TypeError "Input file is not a CustomResourceDefinition." []), w).
Proof.
  unfold resolve, input_document. intros Hdoc Hkind Hne.
  unfold mbind, io_bind, lift, raise, read_file, read_stdin.
  destruct (String.eqb source "-"); simpl;
    [injection Hdoc as -> | rewrite Hdoc]; by rewrite Hkind, Hne.
Qed.

Lemma resolve_wrong_kind_witness :
  let w := example_world example_configmap in
  let RP := ResolvingParser_spec example_fetch 10 in
  input_document "crd.yaml" w = Some example_configmap ∧
  getitem example_configmap "kind" = Ok (VStr "ConfigMap") ∧
  py_eq_str (VStr "ConfigMap") "CustomResourceDefinition" = false ∧
  resolve RP (λ _, true) (λ _ doc, Ok doc) never_refused never_interrupted "crd.yaml" "out.yaml" None false w
  = (Raise (TypeError "Input file is not a CustomResourceDefinition." []), w).
Proof.
  intros w RP.
  assert (Hdoc : input_document "crd.yaml" w = Some example_configmap)
    by (vm_compute; reflexivity).
  assert (Hkind : getitem example_configmap "kind" = Ok (VStr "ConfigMap"))
    by (vm_compute; reflexivity).
  split_and!; [done | done | reflexivity |].
  exact (resolve_wrong_kind RP (λ _, true) (λ _ doc, Ok doc) never_refused never_interrupted
           "crd.yaml" "out.yaml" None false w example_configmap
           (VStr "ConfigMap") Hdoc Hkind eq_refl).
Defined.

(** ** More on the Description Pruner *)

Lemma description_entry_source src k s child :
  source_child src k = Some s →
  description_entry src k child = Some (remove_k8s_descriptions child s).
Proof. unfold description_entry. by intros ->. Qed.

Lemma description_entry_Some src k child x :
  description_entry src k child = Some x →
  (∃ s, source_child src k = Some s ∧ x = remove_k8s_descriptions child s) ∨
  (source_child src k = None ∧ k ≠ "description" ∧
   x = remove_k8s_descriptions child VNull).
Proof.
  unfold description_entry. destruct (source_child src k) as [s|].
  - intros [= <-]. eauto.
  - destruct (String.eqb_spec k "description"); [done|]. intros [= <-]. eauto.
Qed.

Lemma source_child_get_path src k ks :
  get_path (Key <$> k :: ks) src = source_child src k ≫= get_path (Key <$> ks).
Proof. by destruct src. Qed.

(** Along mapping keys a node that the pruner keeps is the node of the
    argument, pruned against the source below the same keys, or against
    nothing when the source has no such place. *)
Lemma remove_k8s_descriptions_keys ks : ∀ t src v',
  get_path (Key <$> ks) (remove_k8s_descriptions t src) = Some v' →
  ∃ v, get_path (Key <$> ks) t = Some v ∧
    v' = remove_k8s_descriptions v
           (default VNull (get_path (Key <$> ks) src)).
Proof.
  induction ks as [|k ks IH]; intros t src v' Hp.
  { simpl in *. exists t. naive_solver. }
  rewrite (source_child_get_path src).
  change (get_path (Key <$> k :: ks) ?u)
    with (get_step (Key k) u ≫= get_path (Key <$> ks)) in *.
  not_dict_cases t d; try done.
  rewrite remove_k8s_descriptions_dict in Hp. cbn [get_step] in *.
  rewrite map_lookup_imap in Hp.
  destruct (d !! k) as [x|] eqn:Hk; [|done].
  cbn [mbind option_bind] in *.
  destruct (description_entry src k x) as [x'|] eqn:He; [|done].
  apply description_entry_Some in He as [(s & Hs & ->)|(Hs & _ & ->)];
    rewrite Hs; cbn [mbind option_bind] in *.
  - by apply IH.
  - apply IH in Hp as (v & Hv & ->). exists v. split; [done|].
    by destruct ks.
Qed.

(** X1: A description that is left in a mapping reached through mapping values
    stands where the source has one too. *)
Theorem remove_k8s_descriptions_left_are_in_source ks : ∀ t src x,
  get_path (Key <$> ks ++ ["description"]) (remove_k8s_descriptions t src)
    = Some x →
  is_Some (get_path (Key <$> ks ++ ["description"]) src).
Proof.
  induction ks as [|k ks IH]; intros t src x Hp.
  - simpl in *. not_dict_cases t d.
    all: try (destruct src; done).
    rewrite remove_k8s_descriptions_dict in Hp. simpl in Hp.
    rewrite map_lookup_imap in Hp.
    destruct (d !! "description") as [y|]; simpl in Hp; [|done].
    destruct (description_entry src "description" y) as [y'|] eqn:He;
      simpl in Hp; [|done].
    apply description_entry_Some in He as [(s & Hs & _)|(_ & ? & _)]; [|done].
    destruct src; simpl in *; try done. rewrite Hs. simpl. eauto.
  - change (Key <$> (k :: ks) ++ ["description"])
      with (Key <$> k :: (ks ++ ["description"])) in *.
    rewrite (source_child_get_path src). simpl in Hp.
    not_dict_cases t d; try done.
    rewrite remove_k8s_descriptions_dict in Hp. simpl in Hp.
    rewrite map_lookup_imap in Hp.
    destruct (d !! k) as [y|]; simpl in Hp; [|done].
    destruct (description_entry src k y) as [y'|] eqn:He; simpl in Hp; [|done].
    apply description_entry_Some in He as [(s & Hs & ->)|(_ & _ & ->)].
    + rewrite Hs. by eapply IH.
    + apply IH in Hp as [? Hnone]. by destruct ks.
Qed.

(** X2: What stands in the source is never removed.  Below mapping keys that
    the source has, the node of the result is the node of the argument, pruned
    against the source at the same place. *)
Theorem remove_k8s_descriptions_keeps_source_paths ks : ∀ t src s,
  get_path (Key <$> ks) src = Some s →
  get_path (Key <$> ks) (remove_k8s_descriptions t src)
  = (λ v, remove_k8s_descriptions v s) <$> get_path (Key <$> ks) t.
Proof.
  induction ks as [|k ks IH]; intros t src s Hs.
  { simpl in *. by injection Hs as ->. }
  rewrite (source_child_get_path src) in Hs.
  destruct (source_child src k) as [s1|] eqn:Hk1; [|done]. simpl in Hs |- *.
  not_dict_cases t d; try done.
  rewrite remove_k8s_descriptions_dict. simpl. rewrite map_lookup_imap.
  destruct (d !! k) as [x|]; simpl; [|done].
  rewrite (description_entry_source _ _ _ _ Hk1). simpl. by apply IH.
Qed.

(** X3: Pruning the descriptions a second time against the same source changes
    nothing. *)
Theorem remove_k8s_descriptions_idempotent t : ∀ src,
  remove_k8s_descriptions (remove_k8s_descriptions t src) src
  = remove_k8s_descriptions t src.
Proof.
  induction t as [| | | | |l _|d IH] using value_nested_ind; intros src;
    try done.
  rewrite !remove_k8s_descriptions_dict. f_equal. apply map_eq. intros k.
  rewrite !map_lookup_imap.
  destruct (d !! k) as [x|] eqn:Hk; simpl; [|done].
  unfold description_entry at 2 3.
  destruct (source_child src k) as [s|] eqn:Hs; simpl.
  - rewrite (description_entry_source _ _ _ _ Hs). f_equal. by eapply IH.
  - destruct (String.eqb k "description") eqn:Hd; simpl; [done|].
    unfold description_entry. rewrite Hs, Hd. f_equal. by eapply IH.
Qed.

(** X4: The two pruners commute, so the order in which [parse_and_resolve]
    runs them does not matter. *)
Theorem pruners_commute t : ∀ src,
  remove_k8s_descriptions (remove_k8s_extentions t) src
  = remove_k8s_extentions (remove_k8s_descriptions t src).
Proof.
  induction t as [| | | | |l _|d IH] using value_nested_ind; intros src;
    try done.
  rewrite remove_k8s_extentions_dict, !remove_k8s_descriptions_dict,
    remove_k8s_extentions_dict.
  f_equal. apply map_eq. intros k. rewrite !map_lookup_imap.
  destruct (d !! k) as [x|] eqn:Hk; simpl; [|done].
  unfold extension_entry, description_entry.
  destruct (pruned_key k), (source_child src k) as [s|],
    (String.eqb k "description"); simpl; try done; f_equal; by eapply IH.
Qed.

Lemma remove_k8s_descriptions_pruned_self t :
  remove_k8s_descriptions (remove_k8s_extentions t) t
  = remove_k8s_extentions t.
Proof.
  induction t as [| | | | |l _|d IH] using value_nested_ind; try done.
  rewrite remove_k8s_extentions_dict, remove_k8s_descriptions_dict.
  f_equal. apply map_eq. intros k. rewrite !map_lookup_imap.
  destruct (d !! k) as [x|] eqn:Hk; simpl; [|done].
  unfold extension_entry. destruct (pruned_key k); simpl; [done|].
  unfold description_entry. simpl. rewrite Hk. f_equal. by eapply IH.
Qed.

(** X5: Against its own unpruned tree the Description Pruner removes nothing
    from what the Extension Pruner leaves. *)
Theorem remove_k8s_descriptions_of_pruned_source t :
  remove_k8s_descriptions (remove_k8s_extentions t) t
  = remove_k8s_extentions t.
Proof. exact (remove_k8s_descriptions_pruned_self t). Qed.

Lemma description_entries_dom src (d : gmap string value) k :
  k ∈ dom (map_imap (description_entry src) d) ↔
  k ∈ dom d ∧ (k = "description" → is_Some (source_child src k)).
Proof.
  rewrite !elem_of_dom, map_lookup_imap.
  destruct (d !! k) as [x|]; simpl; [|split; [by intros [??]|by intros [[??] _]]].
  unfold description_entry. destruct (source_child src k) as [s|].
  - split; eauto.
  - destruct (String.eqb_spec k "description") as [->|Hne].
    + split; [by intros [??]|]. intros [_ H]. by destruct H.
    + split; [|eauto]. intros _. split; [eauto|done].
Qed.

(** X6: The Description Pruner deletes nothing but entries named
    [description].  Every node of the result sits at the same place in the
    argument; a mapping has lost at most its [description] key, and a scalar
    or a sequence is what it was. *)
Theorem remove_k8s_descriptions_shrinks t src p v' :
  get_path p (remove_k8s_descriptions t src) = Some v' →
  ∃ v, get_path p t = Some v ∧
    match v' with
    | VDict d' => ∃ d, v = VDict d ∧ dom d' ⊆ dom d ∧
                       dom d ∖ dom d' ⊆ {["description"]}
    | _ => v = v'
    end.
Proof.
  intros Hp.
  apply remove_k8s_descriptions_origin in Hp as (v & s & Hv & [->| ->]).
  - exists v. split; [done|]. destruct v as [| | | | | |d]; try done.
    exists d. split_and!; [done | done |].
    intros k. rewrite elem_of_difference. by intros [??].
  - exists v. split; [done|]. not_dict_cases v d; try done.
    rewrite remove_k8s_descriptions_dict. exists d. split; [done|].
    split; intros k; rewrite ?elem_of_difference, description_entries_dom.
    + by intros [??].
    + rewrite elem_of_singleton. intros [Hk Hn].
      destruct (decide (k = "description")) as [|Hne]; [done|].
      destruct Hn. by split.
Qed.

Lemma remove_k8s_descriptions_left_are_in_source_witness :
  get_path (Key <$> ["a"] ++ ["description"])
    (remove_k8s_descriptions provenance_resolved provenance_source)
    = Some (VStr "kept") ∧
  is_Some (get_path (Key <$> ["a"] ++ ["description"]) provenance_source).
Proof.
  assert (Hp : get_path (Key <$> ["a"] ++ ["description"])
                 (remove_k8s_descriptions provenance_resolved provenance_source)
               = Some (VStr "kept")) by (vm_compute; reflexivity).
  split; [done|].
  exact (remove_k8s_descriptions_left_are_in_source ["a"] provenance_resolved
           provenance_source (VStr "kept") Hp).
Defined.

Lemma remove_k8s_descriptions_keeps_source_paths_witness :
  get_path (Key <$> ["a"; "description"]) provenance_source
    = Some (VStr "kept") ∧
  get_path (Key <$> ["a"; "description"])
    (remove_k8s_descriptions provenance_resolved provenance_source)
  = (λ v, remove_k8s_descriptions v (VStr "kept"))
      <$> get_path (Key <$> ["a"; "description"]) provenance_resolved.
Proof.
  assert (Hs : get_path (Key <$> ["a"; "description"]) provenance_source
               = Some (VStr "kept")) by (vm_compute; reflexivity).
  split; [done|].
  exact (remove_k8s_descriptions_keeps_source_paths ["a"; "description"]
           provenance_resolved provenance_source (VStr "kept") Hs).
Defined.

Lemma remove_k8s_descriptions_shrinks_witness :
  get_path [Key "a"; Key "b"]
    (remove_k8s_descriptions provenance_resolved provenance_source)
    = Some (VDict ∅) ∧
  ∃ v, get_path [Key "a"; Key "b"] provenance_resolved = Some v ∧
       ∃ d, v = VDict d ∧ dom (∅ : gmap string value) ⊆ dom d ∧
            dom d ∖ dom (∅ : gmap string value) ⊆ {["description"]}.
Proof.
  assert (Hp : get_path [Key "a"; Key "b"]
                 (remove_k8s_descriptions provenance_resolved provenance_source)
               = Some (VDict ∅)) by (vm_compute; reflexivity).
  split; [done|].
  exact (remove_k8s_descriptions_shrinks provenance_resolved provenance_source
           [Key "a"; Key "b"] (VDict ∅) Hp).
Defined.

(** ** More on the Extension Pruner *)

Lemma vendor_clean_dict (d : gmap string value) :
  vendor_clean (VDict d) = true ↔
  map_Forall (λ k child, pruned_key k = false ∧ vendor_clean child = true) d.
Proof.
  simpl.
  apply (map_fold_weak_ind (λ r (m : gmap string value),
    r = true ↔
    map_Forall (λ k child, pruned_key k = false ∧ vendor_clean child = true) m)).
  - split; [intros _; apply map_Forall_empty | done].
  - intros k x m r Hk IH. rewrite map_Forall_insert by done.
    rewrite !andb_true_iff, negb_true_iff, IH. tauto.
Qed.

(** X7: The trees that the Extension Pruner leaves as they are are the ones in
    which no mapping reached through mapping values holds a key it deletes;
    its results are among them. *)
Theorem remove_k8s_extentions_fixed_points t :
  (remove_k8s_extentions t = t ↔ vendor_clean t = true) ∧
  vendor_clean (remove_k8s_extentions t) = true.
Proof.
  induction t as [| | | | |l _|d IH] using value_nested_ind; try done.
  rewrite remove_k8s_extentions_dict, !vendor_clean_dict. split; [split|].
  - intros [= Heq] k x Hk.
    assert (Hl : map_imap extension_entry d !! k = Some x) by by rewrite Heq.
    rewrite map_lookup_imap, Hk in Hl. simpl in Hl.
    apply extension_entry_Some in Hl as [Hpk Hx]. split; [done|].
    by apply (IH k x Hk).
  - intros Hd. f_equal. apply map_eq. intros k. rewrite map_lookup_imap.
    destruct (d !! k) as [x|] eqn:Hk; simpl; [|done].
    destruct (Hd k x Hk) as [Hpk Hx].
    rewrite extension_entry_kept by done. f_equal. by apply (IH k x Hk).
  - intros k x' Hk. rewrite map_lookup_imap in Hk.
    destruct (d !! k) as [x|] eqn:Hx; simpl in Hk; [|done].
    apply extension_entry_Some in Hk as [Hpk ->]. split; [done|].
    by apply (IH k x Hx).
Qed.

(** X8: The result of the Extension Pruner, place by place.  A place below a
    deleted key is gone with everything under it; any other place holds what
    it held, pruned when only mapping keys lead to it. *)
Theorem remove_k8s_extentions_lookup p : ∀ t,
  get_path p (remove_k8s_extentions t)
  = if path_kept p
    then (if forallb is_key p then remove_k8s_extentions else id)
           <$> get_path p t
    else None.
Proof.
  intros t. destruct (path_kept p) eqn:Hkept.
  { by apply remove_k8s_extentions_path. }
  revert t. induction p as [|[k|i] p IH]; intros t; simpl in *; try done.
  not_dict_cases t d; try done.
  rewrite remove_k8s_extentions_dict. simpl. rewrite map_lookup_imap.
  destruct (d !! k) as [x|]; simpl; [|done].
  unfold extension_entry. destruct (pruned_key k); simpl in *; [done|].
  by apply IH.
Qed.

(** ** More on [parse_and_resolve] *)

(** X9: An exception of the parser is the exception of [parse_and_resolve],
    whatever the schema; the parser is given the skeleton with the schema as
    its component [crd_schema]. *)
Theorem parse_and_resolve_parser_error RP schema rd e :
  RP (openapi_document schema) = Raise e →
  parse_and_resolve RP schema rd = Raise e.
Proof. intros H. by rewrite parse_and_resolve_unfold, H. Qed.

Lemma parse_and_resolve_Ok RP schema rd out :
  parse_and_resolve RP schema rd = Ok out →
  ∃ resolved, out = (if rd
                     then remove_k8s_descriptions
                            (remove_k8s_extentions resolved) schema
                     else remove_k8s_extentions resolved).
Proof.
  rewrite parse_and_resolve_unfold. intros H.
  do 4 (apply res_bind_Ok in H as (? & _ & H)). injection H as <-. eauto.
Qed.

Lemma pruned_dict_keys v (d : gmap string value) k :
  remove_k8s_extentions v = VDict d → is_Some (d !! k) → pruned_key k = false.
Proof.
  intros Hv [x Hk]. not_dict_cases v d0; try done.
  rewrite remove_k8s_extentions_dict in Hv. injection Hv as <-.
  rewrite map_lookup_imap in Hk.
  destruct (d0 !! k) as [y|]; simpl in Hk; [|done].
  by apply extension_entry_Some in Hk as [? _].
Qed.

(** X10: Whatever the parser returns, with or without the descriptions, no
    mapping of the result reached through mapping values holds a vendor key
    outside the allow-list. *)
Theorem parse_and_resolve_prunes_below_keys RP schema rd out ks d k :
  parse_and_resolve RP schema rd = Ok out →
  get_path (Key <$> ks) out = Some (VDict d) →
  is_Some (d !! k) →
  is_vendor k = true →
  k ∈ K8S_SCHEMA_EXTENSIONS.
Proof.
  intros Hout Hp Hk Hv. apply pruned_key_false; [|done].
  apply parse_and_resolve_Ok in Hout as [resolved ->]. destruct rd.
  - apply remove_k8s_descriptions_keys in Hp as (v & Hp & Hd).
    apply remove_k8s_extentions_keys in Hp as (v0 & _ & ->).
    destruct (remove_k8s_extentions v0) as [| | | | | |d0] eqn:Hv0; try done.
    rewrite remove_k8s_descriptions_dict in Hd. injection Hd as ->.
    apply (pruned_dict_keys v0 d0); [done|].
    apply elem_of_dom. apply elem_of_dom in Hk.
    by apply description_entries_dom in Hk as [? _].
  - apply remove_k8s_extentions_keys in Hp as (v0 & _ & Hd).
    by apply (pruned_dict_keys v0 d).
Qed.

(** X11: When the parser finds nothing to resolve and returns its document,
    [remove_desciptions] makes no difference: either way the result is the
    schema with its extensions pruned. *)
Theorem parse_and_resolve_nothing_imported RP schema rd :
  RP (openapi_document schema) = Ok (openapi_document schema) →
  parse_and_resolve RP schema rd = Ok (remove_k8s_extentions schema).
Proof.
  intros H. rewrite parse_and_resolve_unfold, H.
  change (Ok (openapi_document schema) ≫= _)
    with (Ok (if rd
              then remove_k8s_descriptions (remove_k8s_extentions schema) schema
              else remove_k8s_extentions schema) : res value).
  destruct rd; [|done]. by rewrite remove_k8s_descriptions_pruned_self.
Qed.

(** ** More on the driver *)

Lemma py_eq_str_true v s : py_eq_str v s = true → v = VStr s.
Proof.
  destruct v; simpl; try done. by intros ->%String.eqb_eq.
Qed.

(** Run [resolve] up to the results of the calls it makes. *)
Ltac run_resolve :=
  unfold resolve, mbind, io_bind, mret, io_ret, raise, lift, read_file,
    read_stdin, write_file, write_stdout.

Ltac tidy_tests :=
  repeat match goal with
  | H : negb _ = true |- _ => apply negb_true_iff in H
  | H : negb _ = false |- _ => apply negb_false_iff in H
  | H : py_eq_str _ _ = true |- _ => apply py_eq_str_true in H; subst
  end.



(** X13: A run that succeeds has read a [CustomResourceDefinition] of one of the
    two versions and has dumped it once, resolved, to the destination; nothing
    else has changed. *)
Theorem resolve_success RP JB JA OR DI source destination jsonpatch rd w u w' :
  resolve RP JB JA OR DI source destination jsonpatch rd w = (Ok u, w') →
  ∃ doc out,
    input_document source w = Some doc ∧
    getitem doc "kind" = Ok (VStr "CustomResourceDefinition") ∧
    ((getitem doc "apiVersion" = Ok (VStr "apiextensions.k8s.io/v1beta1") ∧
      resolve_v1beta1 RP doc rd = Ok out) ∨
     (getitem doc "apiVersion" = Ok (VStr "apiextensions.k8s.io/v1") ∧
      resolve_v1 RP doc rd = Ok out)) ∧
    w' = dumped destination out w.
Proof.
  run_resolve. unfold input_document, dumped. intros H.
  repeat case_match; simplify_eq; tidy_tests;
    repeat match goal with H : (_ =? _)%string = _ |- _ => rewrite H end;
    eexists _, _; split_and!; eauto.
Qed.

Lemma load_input source w doc :
  input_document source w = Some doc →
  (if negb (String.eqb source "-") then read_file source else read_stdin) w
  = (Ok doc, w).
Proof.
  unfold input_document, read_file, read_stdin.
  destruct (String.eqb source "-"); simpl; [by intros [= ->] | by intros ->].
Qed.

(** Run [resolve] on a document that is there. *)
Ltac run_resolve_on Hdoc :=
  unfold resolve, mbind, io_bind; rewrite (load_input _ _ _ Hdoc);
  unfold mret, io_ret, raise, lift, write_file, write_stdout.

(** X14: A source file that does not exist ends the run in
    [FileNotFoundError]; the standard input is always there. *)
Theorem resolve_missing_file RP JB JA OR DI source destination jsonpatch rd w :
  input_document source w = None →
  resolve RP JB JA OR DI source destination jsonpatch rd w
  = (Raise (FileNotFoundError source), w).
Proof.
  run_resolve. unfold input_document.
  destruct (String.eqb source "-"); simpl; [done|]. by intros ->.
Qed.

(** X15: A document that is not a mapping, as the [None] of an empty file is,
    ends the run in the [TypeError] of the first subscript. *)
Theorem resolve_not_a_mapping RP JB JA OR DI source destination jsonpatch rd w doc :
  input_document source w = Some doc →
  is_dict doc = false →
  ∃ msg, resolve RP JB JA OR DI source destination jsonpatch rd w
         = (Raise (TypeError msg []), w).
Proof.
  intros Hdoc Hd. run_resolve_on Hdoc. destruct doc; simpl; eauto; done.
Qed.

(** X16: A mapping with no [kind] ends the run in [KeyError: 'kind']. *)
Theorem resolve_missing_kind RP JB JA OR DI source destination jsonpatch rd w
    (d : gmap string value) :
  input_document source w = Some (VDict d) →
  d !! "kind" = None →
  resolve RP JB JA OR DI source destination jsonpatch rd w
  = (Raise (KeyError "kind"), w).
Proof.
  intros Hdoc Hk. run_resolve_on Hdoc. simpl. by rewrite Hk.
Qed.

(** X17: A [CustomResourceDefinition] with no [apiVersion] ends the run in
    [KeyError: 'apiVersion']. *)
Theorem resolve_missing_apiVersion RP JB JA OR DI source destination jsonpatch rd w
    (d : gmap string value) :
  input_document source w = Some (VDict d) →
  d !! "kind" = Some (VStr "CustomResourceDefinition") →
  d !! "apiVersion" = None →
  resolve RP JB JA OR DI source destination jsonpatch rd w
  = (Raise (KeyError "apiVersion"), w).
Proof.
  intros Hdoc Hk Ha. run_resolve_on Hdoc. simpl. by rewrite Hk, Ha.
Qed.

(** X18: For a [v1beta1] CRD whose schema resolves, when the destination opens
    and the dump runs to its end, the document written is the document read
    with [spec.validation.openAPIV3Schema] replaced by the resolved schema and
    nothing else changed. *)
Theorem resolve_v1beta1_output RP JB JA OR DI source destination jsonpatch rd w
    (d sp val : gmap string value) schema resolved :
  input_document source w = Some (VDict d) →
  d !! "kind" = Some (VStr "CustomResourceDefinition") →
  d !! "apiVersion" = Some (VStr "apiextensions.k8s.io/v1beta1") →
  d !! "spec" = Some (VDict sp) →
  sp !! "validation" = Some (VDict val) →
  val !! "openAPIV3Schema" = Some schema →
  parse_and_resolve RP schema rd = Ok resolved →
  let out :=
    VDict (<["spec" := VDict (<["validation" :=
             VDict (<["openAPIV3Schema" := resolved]> val)]> sp)]> d) in
  destination = "-" ∨ OR destination w = None →
  DI destination out (opened destination w) = None →
  resolve RP JB JA OR DI source destination jsonpatch rd w
  = (Ok (), dumped destination out w).
Proof.
  intros Hdoc Hk Ha Hsp Hval Hs Hres out Hopen Hdump. run_resolve_on Hdoc.
  unfold dumped, opened, resolve_v1beta1 in *. simpl.
  rewrite Hk, Ha; simpl; rewrite Hsp; simpl; rewrite Hval; simpl.
  rewrite Hs; simpl; rewrite Hres; simpl. fold out.
  destruct (String.eqb_spec destination "-") as [->|Hne]; simpl.
  - by rewrite Hdump.
  - destruct Hopen as [?|Hopen]; [done|]. by rewrite Hopen, Hdump.
Qed.

(** X19: A [v1beta1] CRD whose [spec] has no [validation] ends the run in
    [KeyError: 'validation']: the schema is taken to be there. *)
Theorem resolve_v1beta1_missing_validation RP JB JA OR DI source destination
    jsonpatch rd w (d sp : gmap string value) :
  input_document source w = Some (VDict d) →
  d !! "kind" = Some (VStr "CustomResourceDefinition") →
  d !! "apiVersion" = Some (VStr "apiextensions.k8s.io/v1beta1") →
  d !! "spec" = Some (VDict sp) →
  sp !! "validation" = None →
  resolve RP JB JA OR DI source destination jsonpatch rd w
  = (Raise (KeyError "validation"), w).
Proof.
  intros Hdoc Hk Ha Hsp Hval. run_resolve_on Hdoc.
  unfold resolve_v1beta1. simpl.
  rewrite Hk, Ha; simpl; rewrite Hsp; simpl; by rewrite Hval.
Qed.

(** ** The versions of a [v1] CRD *)



Lemma res_mapM_Raise {A B} (f : A → res B) l :
  Exists (λ x, ∃ e, f x = Raise e) l → ∃ e, mapM f l = Raise e.
Proof.
  induction 1 as [x l [e He]|x l _ [e IH]]; simpl.
  - rewrite He. eauto.
  - destruct (f x); simpl; [|eauto]. rewrite IH. eauto.
Qed.



(** X21: When the schema of one version cannot be resolved, or a version has
    none, [resolve_v1] raises and returns no document, whatever the other
    versions are. *)
Theorem resolve_v1_one_version_fails RP source rd vs :
  get_path [Key "spec"; Key "versions"] source = Some (VList vs) →
  Exists (λ v, ∃ e, resolve_version RP rd v = Raise e) vs →
  ∃ e, resolve_v1 RP source rd = Raise e.
Proof.
  intros Hvs Hex. unfold resolve_v1.
  destruct source as [| | | | | |d]; try done. simpl in Hvs |- *.
  destruct (d !! "spec") as [spec|]; [|done]. simpl in Hvs |- *.
  destruct spec as [| | | | | |sp]; try done. simpl in Hvs |- *.
  destruct (sp !! "versions") as [versions|]; [|done].
  simpl in Hvs |- *. injection Hvs as ->. simpl.
  apply (res_mapM_Raise (resolve_version RP rd)) in Hex as [e ->]. eauto.
Qed.

(** X22: With nothing to iterate over, an empty list of versions and equally an
    empty mapping or an empty string in its place, [resolve_v1] returns the
    document as it is. *)
Theorem resolve_v1_no_versions RP source rd versions :
  get_path [Key "spec"; Key "versions"] source = Some versions →
  versions = VList [] ∨ versions = VDict ∅ ∨ versions = VStr "" →
  resolve_v1 RP source rd = Ok source.
Proof.
  intros Hvs Hempty. unfold resolve_v1.
  destruct source as [| | | | | |d]; try done. simpl in Hvs |- *.
  destruct (d !! "spec") as [spec|] eqn:Hd; [|done]. simpl in Hvs |- *.
  destruct spec as [| | | | | |sp]; try done. simpl in Hvs |- *.
  destruct (sp !! "versions") as [versions'|] eqn:Hsp; [|done].
  simpl in Hvs |- *. injection Hvs as ->.
  destruct Hempty as [-> | [-> | ->]]; simpl; [|done..].
  by rewrite (insert_id sp), (insert_id d).
Qed.

(** ** The properties above at concrete inputs *)

Lemma parse_and_resolve_parser_error_witness :
  ResolvingParser_spec example_fetch 10 (openapi_document cyclic_schema)
    = Raise (LibraryError "ResolutionError") ∧
  parse_and_resolve (ResolvingParser_spec example_fetch 10) cyclic_schema true
    = Raise (LibraryError "ResolutionError").
Proof.
  assert (H : ResolvingParser_spec example_fetch 10
                (openapi_document cyclic_schema)
              = Raise (LibraryError "ResolutionError"))
    by (vm_compute; reflexivity).
  split; [done|].
  exact (parse_and_resolve_parser_error (ResolvingParser_spec example_fetch 10)
           cyclic_schema true _ H).
Defined.

Lemma parse_and_resolve_prunes_below_keys_witness :
  parse_and_resolve identity_parser nested_schema true
    = Ok nested_schema_pruned ∧
  get_path (Key <$> ["properties"; "a"]) nested_schema_pruned
    = Some (VDict nested_schema_a) ∧
  is_Some (nested_schema_a !! "x-kubernetes-list-type") ∧
  is_vendor "x-kubernetes-list-type" = true ∧
  "x-kubernetes-list-type" ∈ K8S_SCHEMA_EXTENSIONS.
Proof.
  assert (Hout : parse_and_resolve identity_parser nested_schema true
                 = Ok nested_schema_pruned) by (vm_compute; reflexivity).
  assert (Hp : get_path (Key <$> ["properties"; "a"]) nested_schema_pruned
               = Some (VDict nested_schema_a)) by (vm_compute; reflexivity).
  assert (Hk : is_Some (nested_schema_a !! "x-kubernetes-list-type"))
    by (vm_compute; eauto).
  split_and!; [done | done | done | reflexivity |].
  exact (parse_and_resolve_prunes_below_keys identity_parser nested_schema true
           nested_schema_pruned ["properties"; "a"] nested_schema_a
           "x-kubernetes-list-type" Hout Hp Hk eq_refl).
Defined.

Lemma parse_and_resolve_nothing_imported_witness :
  identity_parser (openapi_document nested_schema)
    = Ok (openapi_document nested_schema) ∧
  parse_and_resolve identity_parser nested_schema true
    = Ok (remove_k8s_extentions nested_schema).
Proof.
  split; [reflexivity|].
  exact (parse_and_resolve_nothing_imported identity_parser nested_schema true
           eq_refl).
Defined.


Lemma resolve_success_witness :
  let RP := ResolvingParser_spec example_fetch 10 in
  let crd := example_crd "apiextensions.k8s.io/v1beta1" ref_schema in
  let out := example_crd "apiextensions.k8s.io/v1beta1" ref_schema_resolved in
  let w := example_world crd in
  let w' := World (<["out.yaml" := out]> (files w)) VNull [] in
  resolve RP (λ _, true) (λ _ doc, Ok doc) never_refused never_interrupted "crd.yaml" "out.yaml" None false w
    = (Ok (), w') ∧
  ∃ doc out,
    input_document "crd.yaml" w = Some doc ∧
    getitem doc "kind" = Ok (VStr "CustomResourceDefinition") ∧
    ((getitem doc "apiVersion" = Ok (VStr "apiextensions.k8s.io/v1beta1") ∧
      resolve_v1beta1 RP doc false = Ok out) ∨
     (getitem doc "apiVersion" = Ok (VStr "apiextensions.k8s.io/v1") ∧
      resolve_v1 RP doc false = Ok out)) ∧
    w' = dumped "out.yaml" out w.
Proof.
  intros RP crd out w w'.
  assert (H : resolve RP (λ _, true) (λ _ doc, Ok doc) never_refused never_interrupted
                "crd.yaml" "out.yaml" None false w = (Ok (), w'))
    by (vm_compute; reflexivity).
  split; [done|].
  exact (resolve_success RP (λ _, true) (λ _ doc, Ok doc) never_refused never_interrupted
           "crd.yaml" "out.yaml" None false w () w' H).
Defined.

Lemma resolve_missing_file_witness :
  let w := example_world example_configmap in
  input_document "nowhere.yaml" w = None ∧
  resolve identity_parser (λ _, true) (λ _ doc, Ok doc) never_refused never_interrupted
    "nowhere.yaml" "out.yaml" None false w
  = (Raise (FileNotFoundError "nowhere.yaml"), w).
Proof.
  intros w.
  assert (H : input_document "nowhere.yaml" w = None)
    by (vm_compute; reflexivity).
  split; [done|].
  exact (resolve_missing_file identity_parser (λ _, true) (λ _ doc, Ok doc) never_refused never_interrupted
           "nowhere.yaml" "out.yaml" None false w H).
Defined.

Lemma resolve_not_a_mapping_witness :
  let w := example_world VNull in
  input_document "crd.yaml" w = Some VNull ∧
  is_dict VNull = false ∧
  ∃ msg, resolve identity_parser (λ _, true) (λ _ doc, Ok doc) never_refused never_interrupted
           "crd.yaml" "out.yaml" None false w
         = (Raise (TypeError msg []), w).
Proof.
  intros w.
  assert (H : input_document "crd.yaml" w = Some VNull)
    by (vm_compute; reflexivity).
  split_and!; [done | reflexivity |].
  exact (resolve_not_a_mapping identity_parser (λ _, true) (λ _ doc, Ok doc) never_refused never_interrupted
           "crd.yaml" "out.yaml" None false w VNull H eq_refl).
Defined.

Lemma resolve_missing_kind_witness :
  let w := example_world (VDict kindless_entries) in
  input_document "crd.yaml" w = Some (VDict kindless_entries) ∧
  kindless_entries !! "kind" = None ∧
  resolve identity_parser (λ _, true) (λ _ doc, Ok doc) never_refused never_interrupted
    "crd.yaml" "out.yaml" None false w
  = (Raise (KeyError "kind"), w).
Proof.
  intros w.
  assert (H : input_document "crd.yaml" w = Some (VDict kindless_entries))
    by (vm_compute; reflexivity).
  assert (Hk : kindless_entries !! "kind" = None) by (vm_compute; reflexivity).
  split_and!; [done | done |].
  exact (resolve_missing_kind identity_parser (λ _, true) (λ _ doc, Ok doc) never_refused never_interrupted
           "crd.yaml" "out.yaml" None false w kindless_entries H Hk).
Defined.

Lemma resolve_missing_apiVersion_witness :
  let w := example_world (VDict versionless_entries) in
  input_document "crd.yaml" w = Some (VDict versionless_entries) ∧
  versionless_entries !! "kind" = Some (VStr "CustomResourceDefinition") ∧
  versionless_entries !! "apiVersion" = None ∧
  resolve identity_parser (λ _, true) (λ _ doc, Ok doc) never_refused never_interrupted
    "crd.yaml" "out.yaml" None false w
  = (Raise (KeyError "apiVersion"), w).
Proof.
  intros w.
  assert (H : input_document "crd.yaml" w = Some (VDict versionless_entries))
    by (vm_compute; reflexivity).
  assert (Hk : versionless_entries !! "kind"
               = Some (VStr "CustomResourceDefinition"))
    by (vm_compute; reflexivity).
  assert (Ha : versionless_entries !! "apiVersion" = None)
    by (vm_compute; reflexivity).
  split_and!; [done | done | done |].
  exact (resolve_missing_apiVersion identity_parser (λ _, true)
           (λ _ doc, Ok doc) never_refused never_interrupted "crd.yaml" "out.yaml" None false w
           versionless_entries H Hk Ha).
Defined.

Lemma resolve_v1beta1_output_witness :
  let RP := ResolvingParser_spec example_fetch 10 in
  let d := example_crd_entries "apiextensions.k8s.io/v1beta1" ref_schema in
  let w := example_world (VDict d) in
  input_document "crd.yaml" w = Some (VDict d) ∧
  d !! "kind" = Some (VStr "CustomResourceDefinition") ∧
  d !! "apiVersion" = Some (VStr "apiextensions.k8s.io/v1beta1") ∧
  d !! "spec" = Some (VDict (example_spec ref_schema)) ∧
  example_spec ref_schema !! "validation"
    = Some (VDict (example_validation ref_schema)) ∧
  example_validation ref_schema !! "openAPIV3Schema" = Some ref_schema ∧
  parse_and_resolve RP ref_schema false = Ok ref_schema_resolved ∧
  let out :=
    VDict (<["spec" := VDict (<["validation" :=
             VDict (<["openAPIV3Schema" := ref_schema_resolved]>
                      (example_validation ref_schema))]>
             (example_spec ref_schema))]> d) in
  ("out.yaml" = "-" ∨ never_refused "out.yaml" w = None) ∧
  never_interrupted "out.yaml" out (opened "out.yaml" w) = None ∧
  resolve RP (λ _, true) (λ _ doc, Ok doc) never_refused never_interrupted
    "crd.yaml" "out.yaml" None false w
  = (Ok (), dumped "out.yaml" out w).
Proof.
  intros RP d w.
  assert (H : input_document "crd.yaml" w = Some (VDict d))
    by (vm_compute; reflexivity).
  assert (Hk : d !! "kind" = Some (VStr "CustomResourceDefinition"))
    by (vm_compute; reflexivity).
  assert (Ha : d !! "apiVersion" = Some (VStr "apiextensions.k8s.io/v1beta1"))
    by (vm_compute; reflexivity).
  assert (Hsp : d !! "spec" = Some (VDict (example_spec ref_schema)))
    by (vm_compute; reflexivity).
  assert (Hval : example_spec ref_schema !! "validation"
                 = Some (VDict (example_validation ref_schema)))
    by (vm_compute; reflexivity).
  assert (Hs : example_validation ref_schema !! "openAPIV3Schema"
               = Some ref_schema) by (vm_compute; reflexivity).
  assert (Hres : parse_and_resolve RP ref_schema false = Ok ref_schema_resolved)
    by (vm_compute; reflexivity).
  split_and!; [done..|]. intros out.
  split_and!; [by right | reflexivity |].
  exact (resolve_v1beta1_output RP (λ _, true) (λ _ doc, Ok doc)
           never_refused never_interrupted
           "crd.yaml" "out.yaml" None false w d _ _ ref_schema
           ref_schema_resolved H Hk Ha Hsp Hval Hs Hres
           (or_intror eq_refl) eq_refl).
Defined.

Lemma resolve_v1beta1_missing_validation_witness :
  let w := example_world (VDict unvalidated_crd_entries) in
  input_document "crd.yaml" w = Some (VDict unvalidated_crd_entries) ∧
  unvalidated_crd_entries !! "kind"
    = Some (VStr "CustomResourceDefinition") ∧
  unvalidated_crd_entries !! "apiVersion"
    = Some (VStr "apiextensions.k8s.io/v1beta1") ∧
  unvalidated_crd_entries !! "spec"
    = Some (VDict {[ "group" := VStr "example.com" ]}) ∧
  ({[ "group" := VStr "example.com" ]} : gmap string value) !! "validation"
    = None ∧
  resolve identity_parser (λ _, true) (λ _ doc, Ok doc) never_refused never_interrupted
    "crd.yaml" "out.yaml" None false w
  = (Raise (KeyError "validation"), w).
Proof.
  intros w.
  assert (H : input_document "crd.yaml" w
              = Some (VDict unvalidated_crd_entries))
    by (vm_compute; reflexivity).
  assert (Hk : unvalidated_crd_entries !! "kind"
               = Some (VStr "CustomResourceDefinition"))
    by (vm_compute; reflexivity).
  assert (Ha : unvalidated_crd_entries !! "apiVersion"
               = Some (VStr "apiextensions.k8s.io/v1beta1"))
    by (vm_compute; reflexivity).
  assert (Hsp : unvalidated_crd_entries !! "spec"
                = Some (VDict {[ "group" := VStr "example.com" ]}))
    by (vm_compute; reflexivity).
  assert (Hval : ({[ "group" := VStr "example.com" ]} : gmap string value)
                   !! "validation" = None) by (vm_compute; reflexivity).
  split_and!; [done..|].
  exact (resolve_v1beta1_missing_validation identity_parser (λ _, true)
           (λ _ doc, Ok doc) never_refused never_interrupted "crd.yaml" "out.yaml" None false w
           unvalidated_crd_entries _ H Hk Ha Hsp Hval).
Defined.


Lemma resolve_v1_one_version_fails_witness :
  let RP := ResolvingParser_spec example_fetch 10 in
  let vs := [example_version "v1" nested_schema;
             example_version "v2" cyclic_schema] in
  get_path [Key "spec"; Key "versions"] (example_crd_v1 (VList vs))
    = Some (VList vs) ∧
  Exists (λ v, ∃ e, resolve_version RP false v = Raise e) vs ∧
  ∃ e, resolve_v1 RP (example_crd_v1 (VList vs)) false = Raise e.
Proof.
  intros RP vs.
  assert (Hvs : get_path [Key "spec"; Key "versions"]
                  (example_crd_v1 (VList vs)) = Some (VList vs))
    by (vm_compute; reflexivity).
  assert (Hex : Exists (λ v, ∃ e, resolve_version RP false v = Raise e) vs).
  { apply Exists_cons_tl, Exists_cons_hd.
    exists (LibraryError "ResolutionError"). vm_compute. reflexivity. }
  split_and!; [done | done |].
  exact (resolve_v1_one_version_fails RP (example_crd_v1 (VList vs)) false vs
           Hvs Hex).
Defined.

Lemma resolve_v1_no_versions_witness :
  get_path [Key "spec"; Key "versions"] (example_crd_v1 (VList []))
    = Some (VList []) ∧
  (VList [] = VList [] ∨ VList [] = VDict ∅ ∨ VList [] = VStr "") ∧
  resolve_v1 identity_parser (example_crd_v1 (VList [])) false
  = Ok (example_crd_v1 (VList [])).
Proof.
  assert (Hvs : get_path [Key "spec"; Key "versions"]
                  (example_crd_v1 (VList [])) = Some (VList []))
    by (vm_compute; reflexivity).
  split_and!; [done | by left |].
  exact (resolve_v1_no_versions identity_parser (example_crd_v1 (VList []))
           false (VList []) Hvs (or_introl eq_refl)).
Defined.
